(** * Site Connectivity Checker: the batch runner of [site_checker_tool]

    A shallow embedding of [site_checker_tool/__main__.py] and of
    [display_check_result] from [site_checker_tool/cli_argparse.py],
    followed by the properties of the batch runner, of the input-file
    reader and of the entry point.

    Synchronous Python functions are computations of a trace-and-exception
    monad [M]; coroutines are resumption trees [coro] that the event loop
    [asyncio_run] interprets under a completion schedule. *)

From Stdlib Require Import String Ascii.
From Stdlib Require Import List NArith Arith Lia Bool Permutation.
Import ListNotations.

Set Implicit Arguments.

(** ** Python strings *)

(** A [str] is a sequence of Unicode code points. *)
Definition pystr := list N.

Definition pystr_of_string (s : string) : pystr :=
  map N_of_ascii (list_ascii_of_string s).

Module PyStr.

(** [Py_UNICODE_ISSPACE]: the code points that [str.strip()] removes. *)
Definition isspace (c : N) : bool :=
  ((9 <=? c) && (c <=? 13)        (* \t \n \v \f \r *)
   || (28 <=? c) && (c <=? 32)    (* FS GS RS US and the space *)
   || (c =? 133) || (c =? 160)    (* NEL, no-break space *)
   || (c =? 5760)
   || (8192 <=? c) && (c <=? 8202)
   || (c =? 8232) || (c =? 8233) || (c =? 8239) || (c =? 8287)
   || (c =? 12288))%N.

Fixpoint lstrip (s : pystr) : pystr :=
  match s with
  | [] => []
  | c :: s' => if isspace c then lstrip s' else s
  end.

Definition rstrip (s : pystr) : pystr := rev (lstrip (rev s)).

(** [s.strip()] *)
Definition strip (s : pystr) : pystr := rstrip (lstrip s).

(** Truthiness of a string: [bool(s)]. *)
Definition truthy (s : pystr) : bool :=
  match s with [] => false | _ :: _ => true end.

Definition LF : N := 10.
Definition CR : N := 13.

(** Universal newlines of a text-mode file: "\r\n" and "\r" are read
    as "\n". *)
Fixpoint translate_newlines (s : pystr) : pystr :=
  match s with
  | [] => []
  | c :: s' =>
      if (c =? CR)%N then
        match s' with
        | c' :: s'' =>
            if (c' =? LF)%N then LF :: translate_newlines s''
            else LF :: translate_newlines s'
        | [] => [LF]
        end
      else c :: translate_newlines s'
  end.

(** Iterating a text file yields its lines, each with its terminator;
    [cur] is the line being read, reversed. *)
Fixpoint lines_from (cur : pystr) (s : pystr) : list pystr :=
  match s with
  | [] => match cur with [] => [] | _ :: _ => [rev cur] end
  | c :: s' =>
      if (c =? LF)%N then rev (c :: cur) :: lines_from [] s'
      else lines_from (c :: cur) s'
  end.

Definition readlines (content : pystr) : list pystr :=
  lines_from [] (translate_newlines content).

End PyStr.

(** ** Effects: traces and exceptions *)

Inductive stream := Stdout | Stderr.

(** What a call of the probe does: it returns a truth value or raises an
    instance of [Exception], of which the runner only uses [str(err)].
    A probe that never returns, and the signals outside the [Exception]
    hierarchy ([KeyboardInterrupt], a cancellation), are not modelled. *)
Inductive probe_result :=
| Returned (b : bool)
| Raised (msg : pystr).

(** The exceptions of the program: instances of [Exception], carried by
    their [str], and the [SystemExit] of [sys.exit], which
    [except Exception] does not catch. *)
Inductive exn :=
| Exception (msg : pystr)
| SystemExit (code : N).

(** The events of a run. [ProbeBegin] and [ProbeEnd] mark the two ends
    of a call of the probe, [Display] records a call of
    [display_check_result] with its arguments, [Print] is the text that
    a [print] writes; writing to a stream always succeeds. *)
Inductive event :=
| ProbeBegin (url : pystr)                       (* the probe is called *)
| ProbeEnd (url : pystr) (o : probe_result)      (* the probe is over *)
| Display (result : bool) (url error : pystr)    (* display_check_result(result, url, error) *)
| Print (s : stream) (text : pystr).             (* text written to a stream *)

Inductive result (A : Type) :=
| Ok (a : A)
| Err (e : exn).
Arguments Ok {A} a.
Arguments Err {A} e.

(** A synchronous computation: the events it performs, in order, and how
    it ends. *)
Definition M (A : Type) : Type := (list event * result A)%type.

Definition ret {A} (a : A) : M A := ([], Ok a).
Definition raise {A} (e : exn) : M A := ([], Err e).
Definition emit (ev : event) : M unit := ([ev], Ok tt).

Definition bind {A B} (c : M A) (k : A -> M B) : M B :=
  match c with
  | (tr, Ok a) => let (tr', r) := k a in (tr ++ tr', r)
  | (tr, Err e) => (tr, Err e)
  end.

(** [try: body / except Exception as err: handler(str(err))] *)
Definition try_except {A} (body : M A) (handler : pystr -> M A) : M A :=
  match body with
  | (tr, Err (Exception msg)) => let (tr', r) := handler msg in (tr ++ tr', r)
  | _ => body
  end.

Declare Scope py_scope.
Delimit Scope py_scope with py.
Notation "x <- c ;; k" := (bind c (fun x => k))
  (at level 61, c at next level, right associativity) : py_scope.
Notation "' pat <- c ;; k" := (bind c (fun x => match x with pat => k end))
  (at level 61, pat pattern, c at next level, right associativity) : py_scope.
Notation "c ;; k" := (bind c (fun _ => k))
  (at level 61, right associativity) : py_scope.
Local Open Scope py_scope.

Definition trace {A} (c : M A) : list event := fst c.
Definition outcome {A} (c : M A) : result A := snd c.

(** [for x in xs: body(x)] *)
Fixpoint for_each {X} (xs : list X) (body : X -> M unit) : M unit :=
  match xs with
  | [] => ret tt
  | x :: xs' => body x ;; for_each xs' body
  end.

(** [print(text, end=end_, file=s)] *)
Definition print (s : stream) (text end_ : pystr) : M unit :=
  emit (Print s (text ++ end_)).

(** [sys.exit(code)] *)
Definition sys_exit {A} (code : N) : M A := raise (SystemExit code).

(** ** Coroutines *)

(** A coroutine is run by the event loop up to its next [await] of the
    asynchronous probe, where it is suspended until the probe is over. *)
Inductive coro (A : Type) : Type :=
| CRet (a : A)
| CRaise (e : exn)
| CDo (ev : event) (k : coro A)
| CAwait (url : pystr) (k : probe_result -> coro A).
Arguments CRet {A} a.
Arguments CRaise {A} e.
Arguments CDo {A} ev k.
Arguments CAwait {A} url k.

Fixpoint cbind {A B} (c : coro A) (f : A -> coro B) : coro B :=
  match c with
  | CRet a => f a
  | CRaise e => CRaise e
  | CDo ev k => CDo ev (cbind k f)
  | CAwait url k => CAwait url (fun o => cbind (k o) f)
  end.

(** [try: body / except Exception as e: handler(str(e))] in a coroutine *)
Fixpoint ctry_except {A} (body : coro A) (handler : pystr -> coro A) : coro A :=
  match body with
  | CRet a => CRet a
  | CRaise (Exception msg) => handler msg
  | CRaise e => CRaise e
  | CDo ev k => CDo ev (ctry_except k handler)
  | CAwait url k => CAwait url (fun o => ctry_except (k o) handler)
  end.

(** A call of a synchronous function from a coroutine. *)
Definition call {A} (c : M A) : coro A :=
  fold_right CDo (match outcome c with Ok a => CRet a | Err e => CRaise e end)
             (trace c).

Notation "x <~ c ;; k" := (cbind c (fun x => k))
  (at level 61, c at next level, right associativity) : py_scope.
Notation "' pat <~ c ;; k" := (cbind c (fun x => match x with pat => k end))
  (at level 61, pat pattern, c at next level, right associativity) : py_scope.

(** The top-level coroutine handed to [asyncio.run]: it awaits
    [asyncio.gather] of its children. *)
Inductive gathering := AwaitGather (children : list (coro unit)).

(** A child task between two steps of the event loop. *)
Inductive task :=
| Suspended (url : pystr) (k : probe_result -> coro unit)
| Finished (r : result unit).

(** Run a coroutine up to its next suspension. *)
Fixpoint advance (c : coro unit) : list event * task :=
  match c with
  | CRet a => ([], Finished (Ok a))
  | CRaise e => ([], Finished (Err e))
  | CDo ev k => let (tr, t) := advance k in (ev :: tr, t)
  | CAwait url k => ([ProbeBegin url], Suspended url k)
  end.

(** The [n]-th suspended task of the pool, with the tasks before and
    after it. *)
Fixpoint nth_suspended (n : nat) (pool : list task)
  : option (list task * (pystr * (probe_result -> coro unit)) * list task) :=
  match pool with
  | [] => None
  | t :: rest =>
      let skip n' :=
        match nth_suspended n' rest with
        | Some (before, uk, after) => Some (t :: before, uk, after)
        | None => None
        end in
      match t with
      | Suspended url k =>
          match n with
          | O => Some ([], (url, k), rest)
          | S n' => skip n'
          end
      | Finished _ => skip n
      end
  end.

(** The task whose probe is over next: the scheduled one, or the first
    suspended one when the schedule names none. *)
Definition select (n : nat) (pool : list task) :=
  match nth_suspended n pool with
  | Some x => Some x
  | None => nth_suspended 0 pool
  end.

(** The exception of the first child that ended by raising, if any. *)
Fixpoint first_failure (pool : list task) : option exn :=
  match pool with
  | [] => None
  | Finished (Err e) :: _ => Some e
  | _ :: rest => first_failure rest
  end.

(** ** Command-line arguments *)

(** The [argparse.Namespace] returned by [read_user_cli_args]: [-u/--urls]
    (default [[]]), [-f/--input-file] (default [""]) and
    [-a/--asynchronous]. *)
Module Namespace.
Record t := make {
  urls : list pystr;
  input_file : pystr;
  asynchronous : bool
}.
End Namespace.

(** ** Display *)

Module Lit.
Definition quote : pystr := [34%N].
Definition cross_mark : pystr := [0x274C%N].
Definition check_mark : pystr := [0x2705%N].
Definition exclamation_mark : pystr := [0x2757%N].
Definition woman_shrugging : pystr := [0x1F937; 0x200D; 0x2640; 0xFE0F]%N.
Definition woman_facepalming : pystr := [0x1F926; 0x200D; 0x2640; 0xFE0F]%N.
Definition space : pystr := [32%N].
Definition newline : pystr := [10%N].
End Lit.

(** [cli_argparse.display_check_result]; the call is recorded first. *)
Definition display_check_result (result : bool) (url : pystr) (error : pystr) : M unit :=
  emit (Display result url error) ;;
  print Stdout (pystr_of_string "The status of '" ++ url ++ pystr_of_string "' is:")
        Lit.space ;;
  if result then
    print Stdout (Lit.quote ++ pystr_of_string "Online!" ++ Lit.quote
                  ++ Lit.space ++ Lit.check_mark) Lit.newline
  else
    print Stdout (Lit.quote ++ pystr_of_string "Offline?" ++ Lit.quote
                  ++ Lit.space ++ Lit.cross_mark ++ Lit.space ++ Lit.newline
                  ++ pystr_of_string " Error: " ++ Lit.quote ++ error ++ Lit.quote)
          Lit.newline.

(** Truthiness of a list: [bool(xs)]. *)
Definition nonempty {X} (xs : list X) : bool :=
  match xs with [] => false | _ :: _ => true end.

(** ** Whitespace trimming, as a relation *)

(** [u] neither starts nor ends with white space. *)
Definition trimmed (u : pystr) : Prop :=
  match u with [] => True | c :: _ => PyStr.isspace c = false end
  /\ match rev u with [] => True | c :: _ => PyStr.isspace c = false end.

(** [u] is [line] without its leading and trailing white space. *)
Definition strips_to (line u : pystr) : Prop :=
  trimmed u
  /\ exists pre post,
       line = pre ++ u ++ post
       /\ forallb PyStr.isspace pre = true
       /\ forallb PyStr.isspace post = true.

(** ** The file system *)

(** What the reader finds at a path. [pathlib.Path.is_file] returns
    [False] for a path that does not lead to a regular file and raises
    the [OSError] of [stat] for some others (a name that is too long, a
    directory that cannot be searched); a regular file is read as its
    text unless [open] or the decoding of the text raises. *)
Inductive file_status :=
| Missing                      (* is_file() returns False *)
| StatError (msg : pystr)      (* is_file() raises an OSError whose str is msg *)
| ReadError (msg : pystr)      (* is_file() returns True; open() or the reading raises *)
| Text (content : pystr).      (* is_file() returns True; the file is read as content *)

(** ** Sample environments *)

Module Demo.
Definition a := pystr_of_string "a.org".
Definition b := pystr_of_string "b.org".
Definition c := pystr_of_string "c.org".

(** A probe that tells the three sites apart: online, an exception with
    a message, a plain [False]; anything else raises an exception whose
    [str] is empty, as [Exception()] or [asyncio.TimeoutError()] do. *)
Definition probe (url : pystr) : probe_result :=
  match url with
  | 97%N :: _ => Returned true
  | 98%N :: _ => Raised (pystr_of_string "timed out")
  | 99%N :: _ => Returned false
  | _ => Raised []
  end.

Definition silent := pystr_of_string "http://".

Definition urls_txt := pystr_of_string "urls.txt".
Definition blank_txt := pystr_of_string "blank.txt".
Definition empty_txt := pystr_of_string "empty.txt".

(** [urls.txt] holds two padded lines, [blank.txt] two lines of white
    space, [empty.txt] nothing; no other file exists. *)
Definition fs (path : pystr) : option pystr :=
  if list_eq_dec N.eq_dec path urls_txt then
    Some (pystr_of_string "  a.org " ++ [13; 10]%N ++ pystr_of_string "c.org" ++ [10]%N)
  else if list_eq_dec N.eq_dec path blank_txt then
    Some ([32; 9; 10; 10]%N)
  else if list_eq_dec N.eq_dec path empty_txt then
    Some []
  else None.

(** A name of 300 letters: [is_file] raises [OSError] on it. *)
Definition too_long : pystr := repeat 120%N 300.

Definition name_too_long : pystr :=
  pystr_of_string "[Errno 36] File name too long: '" ++ too_long
  ++ pystr_of_string "'".

Definition disk (path : pystr) : file_status :=
  if list_eq_dec N.eq_dec path too_long then StatError name_too_long
  else match fs path with
       | Some content => Text content
       | None => Missing
       end.

(** Every probe waits for the network. *)
Definition suspends (url : pystr) : bool := true.
End Demo.

(** ** Files of URLs *)

(** The three conventions that a text-mode file accepts for the end of
    a line. *)
Inductive line_ending := Unix | Dos | OldMac.

Definition terminator (e : line_ending) : pystr :=
  match e with
  | Unix => [PyStr.LF]
  | Dos => [PyStr.CR; PyStr.LF]
  | OldMac => [PyStr.CR]
  end.

(** The text of a file with one URL per line, every line terminated. *)
Definition unlines (e : line_ending) (urls : list pystr) : pystr :=
  flat_map (fun u => u ++ terminator e) urls.

(** A string that a line of a file can hold as it is: no white space
    around it and no end of line in it. *)
Definition plain (u : pystr) : Prop :=
  trimmed u /\ ~ In PyStr.LF u /\ ~ In PyStr.CR u.

Module Sample.
Definition dos_txt := pystr_of_string "dos.txt".
Definition open_txt := pystr_of_string "open.txt".

(** [dos.txt] lists three sites with DOS line ends; [open.txt] lists
    the same sites, the last line without its end. *)
Definition fs (path : pystr) : option pystr :=
  if list_eq_dec N.eq_dec path dos_txt then
    Some (unlines Dos [Demo.a; Demo.b; Demo.c])
  else if list_eq_dec N.eq_dec path open_txt then
    Some (unlines Unix [Demo.a; Demo.b] ++ Demo.c)
  else None.

Definition disk (path : pystr) : file_status :=
  match fs path with
  | Some content => Text content
  | None => Missing
  end.

(** A probe for which only [a.org] is down. *)
Definition probe' (url : pystr) : probe_result :=
  if list_eq_dec N.eq_dec url Demo.a then Raised (pystr_of_string "refused")
  else Demo.probe url.

(** The probe of [b.org] ends without waiting: its name is refused at
    once. The other probes wait for the network. *)
Definition suspends' (url : pystr) : bool :=
  if list_eq_dec N.eq_dec url Demo.b then false else true.
End Sample.

(** ** The program *)

Section Program.

(** The module [site_checker_tool.checker] is imported, not defined,
    by the entry point: what its two probes do for a URL is a parameter
    of the program. *)
Variable checker_site_is_online : pystr -> probe_result.
Variable checker_site_is_online_async : pystr -> probe_result.

(** Whether the asynchronous probe of a URL is suspended, waiting for
    the network, before it is over; a probe that is not ends within the
    step of its task that began it. *)
Variable checker_suspends : pystr -> bool.

(** The file system. *)
Variable disk : pystr -> file_status.

(** The regular files that can be read, with their text. *)
Definition fs (file : pystr) : option pystr :=
  match disk file with
  | Text content => Some content
  | Missing | StatError _ | ReadError _ => None
  end.

(** The order in which the suspended probes of an event loop are over:
    at each step of the loop, which of the suspended tasks resumes. *)
Variable io_order : list nat.

(** [site_is_online(url)]: a blocking call. *)
Definition site_is_online (url : pystr) : M bool :=
  emit (ProbeBegin url) ;;
  let o := checker_site_is_online url in
  emit (ProbeEnd url o) ;;
  match o with
  | Returned b => ret b
  | Raised msg => raise (Exception msg)
  end.

(** [await site_is_online_async(url)]. When the probe is suspended, the
    event loop marks its two ends; when it is not, it begins and is over
    at once, within the current step of the task. *)
Definition site_is_online_async (url : pystr) : coro bool :=
  let done o :=
    match o with
    | Returned b => CRet b
    | Raised msg => CRaise (Exception msg)
    end in
  if checker_suspends url then CAwait url done
  else
    let o := checker_site_is_online_async url in
    CDo (ProbeBegin url) (CDo (ProbeEnd url o) (done o)).

(** *** The event loop *)

(** How many more times a coroutine is suspended before it ends. *)
Fixpoint awaits (c : coro unit) : nat :=
  match c with
  | CRet _ | CRaise _ => 0
  | CDo _ k => awaits k
  | CAwait url k => S (awaits (k (checker_site_is_online_async url)))
  end.

Definition awaits_left (t : task) : nat :=
  match t with
  | Suspended url k => S (awaits (k (checker_site_is_online_async url)))
  | Finished _ => 0
  end.

Definition pending (pool : list task) : nat :=
  list_sum (map awaits_left pool).

(** One step resumes the selected task with the result of its probe
    and runs it up to its next suspension. [gather] is over when no
    child is suspended any more, and raises at once the exception of a
    child that ends by raising. [fuel] bounds the number of steps:
    [pending pool] steps are enough ([event_loop_fuel]). *)
Fixpoint event_loop (fuel : nat) (sched : list nat) (pool : list task) : M unit :=
  match select (hd 0 sched) pool with
  | None => ret tt
  | Some (before, (url, k), after) =>
      match fuel with
      | O => ret tt
      | S fuel' =>
          let o := checker_site_is_online_async url in
          let (tr, t) := advance (k o) in
          emit (ProbeEnd url o) ;;
          (tr, Ok tt) ;;
          match t with
          | Finished (Err e) => raise e
          | _ => event_loop fuel' (tl sched) (before ++ t :: after)
          end
      end
  end.

(** [asyncio.run(main)]: [gather] makes a task of each child; the
    tasks start in order, each running up to its first suspension. *)
Definition asyncio_run (sched : list nat) (main : gathering) : M unit :=
  let 'AwaitGather children := main in
  let started := map advance children in
  (concat (map fst started), Ok tt) ;;
  let pool := map snd started in
  match first_failure pool with
  | Some e => raise e
  | None => event_loop (pending pool) sched pool
  end.

(** *** [site_checker_tool/__main__.py] *)

(** Nothing catches what [is_file], [open] or the reading of the lines
    raise: the exception leaves the function. *)
Definition _read_urls_from_file (file : pystr) : M (list pystr) :=
  match disk file with
  | StatError msg => raise (Exception msg)
  | Text content =>
      let urls := map PyStr.strip (PyStr.readlines content) in
      if nonempty urls then ret urls
      else
        print Stderr (pystr_of_string "Error: empty input file, " ++ file
                      ++ Lit.space ++ Lit.woman_shrugging) Lit.newline ;;
        ret []
  | ReadError msg => raise (Exception msg)
  | Missing =>
      print Stderr (pystr_of_string "Error: input file not found "
                    ++ Lit.woman_facepalming) Lit.newline ;;
      ret []
  end.

Definition _get_websites_urls (user_args : Namespace.t) : M (list pystr) :=
  let urls := Namespace.urls user_args in
  urls <- (if PyStr.truthy (Namespace.input_file user_args) then
             more <- _read_urls_from_file (Namespace.input_file user_args) ;;
             ret (urls ++ more)
           else ret urls) ;;
  ret urls.

Definition _synchronous_check (urls : list pystr) : M unit :=
  for_each urls (fun url =>
    let error := [] in
    '(result, error) <-
      try_except (result <- site_is_online url ;; ret (result, error))
                 (fun err => let result := false in
                             let error := err in
                             ret (result, error)) ;;
    display_check_result result url error).

Definition _check (url : pystr) : coro unit :=
  let error := [] in
  '(result, error) <~
    ctry_except (result <~ site_is_online_async url ;; CRet (result, error))
                (fun e => let result := false in
                          let error := e in
                          CRet (result, error)) ;;
  call (display_check_result result url error).

Definition _asynchronous_check (urls : list pystr) : gathering :=
  AwaitGather (map _check urls).

Definition main (user_args : Namespace.t) : M unit :=
  urls <- _get_websites_urls user_args ;;
  (if negb (nonempty urls) then
     print Stderr (pystr_of_string "Error: no URLs to check "
                   ++ Lit.exclamation_mark) Lit.newline ;;
     sys_exit 1
   else ret tt) ;;
  if Namespace.asynchronous user_args then
    asyncio_run io_order (_asynchronous_check urls)
  else
    _synchronous_check urls.

(** [raise SystemExit(main())]: the exit status of the process. *)
Definition exit_status (r : result unit) : N :=
  match r with
  | Ok _ => 0
  | Err (SystemExit code) => code
  | Err (Exception _) => 1
  end.


(** *** What the runs are compared with *)

(** The arguments of [display_check_result] for a probe that ended with
    [o]: its truth value and no error detail, or [False] and [str(err)]. *)
Definition reported (url : pystr) (o : probe_result) : bool * pystr * pystr :=
  match o with
  | Returned b => (b, url, [])
  | Raised msg => (false, url, msg)
  end.

(** The display calls of a trace, in order. *)
Definition displays (tr : list event) : list (bool * pystr * pystr) :=
  flat_map (fun ev => match ev with
                      | Display r u e => [(r, u, e)]
                      | _ => []
                      end) tr.

Definition displayed_url (d : bool * pystr * pystr) : pystr := snd (fst d).

(** The URLs whose probe begins, and those whose probe is over, in order. *)
Definition begun (tr : list event) : list pystr :=
  flat_map (fun ev => match ev with ProbeBegin u => [u] | _ => [] end) tr.

Definition ended (tr : list event) : list pystr :=
  flat_map (fun ev => match ev with ProbeEnd u _ => [u] | _ => [] end) tr.

Definition is_stderr (ev : event) : bool :=
  match ev with Print Stderr _ => true | _ => false end.

(** A coroutine run on its own to its end: its events and its result. *)
Fixpoint crun (c : coro unit) : list event :=
  match c with
  | CRet _ | CRaise _ => []
  | CDo ev k => ev :: crun k
  | CAwait url k =>
      let o := checker_site_is_online_async url in
      ProbeBegin url :: ProbeEnd url o :: crun (k o)
  end.

Fixpoint cend (c : coro unit) : result unit :=
  match c with
  | CRet a => Ok a
  | CRaise e => Err e
  | CDo _ k => cend k
  | CAwait url k => cend (k (checker_site_is_online_async url))
  end.

(** What is left of a task. *)
Definition residual (t : task) : list event :=
  match t with
  | Suspended url k =>
      let o := checker_site_is_online_async url in
      ProbeEnd url o :: crun (k o)
  | Finished _ => []
  end.

Definition tend (t : task) : result unit :=
  match t with
  | Suspended url k => cend (k (checker_site_is_online_async url))
  | Finished r => r
  end.

(** The events of one turn of the sequential loop. *)
Definition turn (url : pystr) (o : probe_result) : list event :=
  let '(r, u, e) := reported url o in
  ProbeBegin url :: ProbeEnd url o :: trace (display_check_result r u e).

Definition turns (checker : pystr -> probe_result) (urls : list pystr) : list event :=
  flat_map (fun url => turn url (checker url)) urls.

(** The dispatch of [main] on [user_args.asynchronous], as a function of
    the mode, and the probe that each mode calls. *)
Definition batch_run (asynchronous : bool) (sched : list nat) (urls : list pystr) : M unit :=
  if asynchronous then asyncio_run sched (_asynchronous_check urls)
  else _synchronous_check urls.

Definition checker_of (asynchronous : bool) : pystr -> probe_result :=
  if asynchronous then checker_site_is_online_async else checker_site_is_online.

(** The messages of the entry point, as written to the standard error
    stream. *)
Definition no_urls_message : pystr :=
  (pystr_of_string "Error: no URLs to check " ++ Lit.exclamation_mark)
  ++ Lit.newline.

Definition not_found_message : pystr :=
  (pystr_of_string "Error: input file not found " ++ Lit.woman_facepalming)
  ++ Lit.newline.

Definition empty_file_message (file : pystr) : pystr :=
  (pystr_of_string "Error: empty input file, " ++ file ++ Lit.space
   ++ Lit.woman_shrugging) ++ Lit.newline.

(** What the input file contributes: its trimmed lines, and the message
    written when it is missing or empty. *)
Definition file_urls (file : pystr) : list pystr :=
  match fs file with
  | Some content => map PyStr.strip (PyStr.readlines content)
  | None => []
  end.

Definition file_errors (file : pystr) : list event :=
  match disk file with
  | Text [] => [Print Stderr (empty_file_message file)]
  | Missing => [Print Stderr not_found_message]
  | Text (_ :: _) | StatError _ | ReadError _ => []
  end.

(** The [str] of the exception that the reading of a file raises, if it
    raises, and that of the input file of a command line. *)
Definition file_failure (file : pystr) : option pystr :=
  match disk file with
  | StatError msg | ReadError msg => Some msg
  | Missing | Text _ => None
  end.

Definition input_failure (user_args : Namespace.t) : option pystr :=
  if PyStr.truthy (Namespace.input_file user_args) then
    file_failure (Namespace.input_file user_args)
  else None.

(** The URLs of the command line followed by those of the input file,
    when one is given. *)
Definition combined_urls (user_args : Namespace.t) : list pystr :=
  if PyStr.truthy (Namespace.input_file user_args) then
    Namespace.urls user_args ++ file_urls (Namespace.input_file user_args)
  else Namespace.urls user_args.

Definition input_errors (user_args : Namespace.t) : list event :=
  if PyStr.truthy (Namespace.input_file user_args) then
    file_errors (Namespace.input_file user_args)
  else [].

(** The same command line without its input file. *)
Definition without_input_file (user_args : Namespace.t) : Namespace.t :=
  Namespace.make (Namespace.urls user_args) [] (Namespace.asynchronous user_args).

(** What the display of a result adds to the trace, and what the end of
    a probe does: the probe is over, then its result is displayed. *)
Definition shown (url : pystr) (o : probe_result) : list event :=
  let '(r, u, e) := reported url o in trace (display_check_result r u e).

Definition finish (url : pystr) (o : probe_result) : list event :=
  ProbeEnd url o :: shown url o.

(** What the first step of the task of a URL does: the probe begins,
    and when it is not suspended it is over and its result displayed. *)
Definition start (url : pystr) : list event :=
  if checker_suspends url then [ProbeBegin url]
  else turn url (checker_site_is_online_async url).

(** A task of the pool of [_asynchronous_check]: done, or suspended on
    its probe with the display of the result left to do. *)
Definition checking (t : task) : Prop :=
  match t with
  | Finished r => r = Ok tt
  | Suspended url k => forall o, advance (k o) = (shown url o, Finished (Ok tt))
  end.

(** The URLs of the suspended tasks of a pool. *)
Definition waiting (pool : list task) : list pystr :=
  flat_map (fun t => match t with Suspended url _ => [url] | Finished _ => [] end)
           pool.

(** No event of the trace is a write to the standard error stream. *)
Definition no_stderr (tr : list event) : Prop :=
  Forall (fun ev => is_stderr ev = false) tr.

(** ** Facts *)

(** *** Sequential mode *)

Lemma _synchronous_check_run urls :
  _synchronous_check urls
  = (flat_map (fun url => turn url (checker_site_is_online url)) urls, Ok tt).
Proof.
  induction urls as [|url urls IH]; [reflexivity|].
  unfold _synchronous_check in *; simpl for_each.
  rewrite IH; clear IH.
  cbn [flat_map]; unfold turn, site_is_online.
  destruct (checker_site_is_online url) as [[|]|msg]; reflexivity.
Qed.

(** *** The event loop *)

Lemma advance_spec c :
  crun c = fst (advance c) ++ residual (snd (advance c))
  /\ cend c = tend (snd (advance c))
  /\ awaits c = awaits_left (snd (advance c)).
Proof.
  induction c as [a|e|ev k IH|url k IH]; simpl; auto.
  destruct (advance k) as [tr t]; simpl in *.
  destruct IH as (-> & -> & ->); auto.
Qed.

Lemma nth_suspended_split pool : forall n before url k after,
  nth_suspended n pool = Some (before, (url, k), after) ->
  pool = before ++ Suspended url k :: after.
Proof.
  induction pool as [|t pool IH]; intros n before url k after; simpl; [discriminate|].
  destruct t as [u' k'|r].
  - destruct n as [|n].
    + intros [= <- <- <- <-]; reflexivity.
    + destruct (nth_suspended n pool) as [[[b' [u'' k'']] a']|] eqn:E; [|discriminate].
      intros [= <- <- <- <-]. simpl. f_equal. eapply IH; eassumption.
  - destruct (nth_suspended n pool) as [[[b' [u'' k'']] a']|] eqn:E; [|discriminate].
    intros [= <- <- <- <-]. simpl. f_equal. eapply IH; eassumption.
Qed.

Lemma select_split n pool before url k after :
  select n pool = Some (before, (url, k), after) ->
  pool = before ++ Suspended url k :: after.
Proof.
  unfold select.
  destruct (nth_suspended n pool) as [x|] eqn:E.
  - intros [= ->]. eapply nth_suspended_split; eassumption.
  - apply nth_suspended_split.
Qed.

Lemma nth_suspended_none pool :
  nth_suspended 0 pool = None ->
  concat (map residual pool) = [] /\ pending pool = 0.
Proof.
  unfold pending.
  induction pool as [|[u k|r] pool IH]; simpl; auto; [discriminate|].
  destruct (nth_suspended 0 pool) as [[[b' [u'' k'']] a']|]; [discriminate|auto].
Qed.

Lemma select_none n pool :
  select n pool = None -> concat (map residual pool) = [] /\ pending pool = 0.
Proof.
  unfold select.
  destruct (nth_suspended n pool); [discriminate|apply nth_suspended_none].
Qed.

Lemma pending_app before t after :
  pending (before ++ t :: after) = pending before + awaits_left t + pending after.
Proof.
  unfold pending. rewrite map_app, list_sum_app. simpl. lia.
Qed.

Lemma first_failure_none pool :
  Forall (fun t => tend t = Ok tt) pool -> first_failure pool = None.
Proof.
  induction 1 as [|t pool Ht _ IH]; simpl; auto.
  destruct t as [u k|[a|e]]; auto. discriminate.
Qed.

(** Whatever the schedule, the loop ends well when every task does, and
    its events are those of the tasks, interleaved. *)
Lemma event_loop_spec fuel : forall sched pool,
  Forall (fun t => tend t = Ok tt) pool ->
  pending pool <= fuel ->
  outcome (event_loop fuel sched pool) = Ok tt
  /\ Permutation (trace (event_loop fuel sched pool)) (concat (map residual pool)).
Proof.
  induction fuel as [|fuel IH]; intros sched pool Hok Hfuel; cbn [event_loop];
    destruct (select (hd 0 sched) pool) as [[[before [url k]] after]|] eqn:Hsel.
  - apply select_split in Hsel; subst pool.
    rewrite pending_app in Hfuel; simpl in Hfuel; lia.
  - apply select_none in Hsel as [-> _]. split; [reflexivity|constructor].
  - apply select_split in Hsel; subst pool.
    set (o := checker_site_is_online_async url).
    destruct (advance_spec (k o)) as (Hrun & Hend & Hawaits).
    destruct (advance (k o)) as [tr t] eqn:Hadv; simpl in Hrun, Hend, Hawaits.
    assert (Ht : tend t = Ok tt).
    { rewrite <- Hend. apply Forall_app in Hok as [_ Hok].
      inversion Hok; subst; assumption. }
    assert (Hok' : Forall (fun t => tend t = Ok tt) (before ++ t :: after)).
    { apply Forall_app in Hok as [Hb Ha]. apply Forall_app; split; [assumption|].
      inversion Ha; subst. constructor; assumption. }
    assert (Hfuel' : pending (before ++ t :: after) <= fuel).
    { rewrite pending_app in *. simpl in Hfuel. fold o in Hfuel. lia. }
    destruct (IH (tl sched) _ Hok' Hfuel') as [Hout Hperm].
    assert (Hnext :
      match t with
      | Finished (Err e) => raise e
      | _ => event_loop fuel (tl sched) (before ++ t :: after)
      end = event_loop fuel (tl sched) (before ++ t :: after)).
    { destruct t as [u' k'|[a|e]]; try reflexivity. discriminate. }
    rewrite Hnext; clear Hnext.
    destruct (event_loop fuel (tl sched) (before ++ t :: after)) as [tr' r'].
    simpl in Hout, Hperm; subst r'. simpl. split; [reflexivity|].
    rewrite !map_app, !concat_app in *. simpl in *. fold o. rewrite Hrun.
    rewrite Hperm.
    change (ProbeEnd url o :: tr ++ concat (map residual before) ++ residual t ++ concat (map residual after))
      with ((ProbeEnd url o :: tr) ++ concat (map residual before) ++ residual t ++ concat (map residual after)).
    rewrite Permutation_app_swap_app.
    apply Permutation_app_head.
    simpl. rewrite <- app_assoc. reflexivity.
  - apply select_none in Hsel as [-> _]. split; [reflexivity|constructor].
Qed.

(** [pending pool] steps are enough: more fuel changes nothing. *)
Lemma event_loop_fuel fuel : forall fuel' sched pool,
  pending pool <= fuel -> pending pool <= fuel' ->
  event_loop fuel sched pool = event_loop fuel' sched pool.
Proof.
  induction fuel as [|fuel IH]; intros fuel' sched pool H H'; cbn [event_loop];
    destruct fuel' as [|fuel']; cbn [event_loop];
    destruct (select (hd 0 sched) pool) as [[[before [url k]] after]|] eqn:Hsel;
    try reflexivity;
    apply select_split in Hsel; subst pool;
    rewrite pending_app in H, H'; simpl in H, H'; try lia.
  set (o := checker_site_is_online_async url) in *.
  destruct (advance_spec (k o)) as (_ & _ & Hawaits).
  destruct (advance (k o)) as [tr t]; simpl in Hawaits.
  rewrite (IH fuel' (tl sched) (before ++ t :: after));
    [reflexivity| |]; rewrite pending_app; lia.
Qed.

Lemma started_interleaving children :
  Permutation
    (concat (map fst (map advance children))
     ++ concat (map residual (map snd (map advance children))))
    (concat (map crun children)).
Proof.
  induction children as [|c cs IH]; simpl; [constructor|].
  destruct (advance_spec c) as (-> & _ & _).
  rewrite <- !app_assoc. apply Permutation_app_head.
  rewrite Permutation_app_swap_app. apply Permutation_app_head. exact IH.
Qed.

(** [asyncio.run] of a [gather] whose children all end well: it ends
    well, after the events of all its children, interleaved. *)
Lemma asyncio_run_spec sched children :
  Forall (fun c => cend c = Ok tt) children ->
  outcome (asyncio_run sched (AwaitGather children)) = Ok tt
  /\ Permutation (trace (asyncio_run sched (AwaitGather children)))
                 (concat (map crun children)).
Proof.
  intros Hok. unfold asyncio_run; cbv zeta.
  set (pool := map snd (map advance children)).
  assert (Hpool : Forall (fun t => tend t = Ok tt) pool).
  { subst pool. rewrite !Forall_map. rewrite Forall_forall in *.
    intros c Hc. destruct (advance_spec c) as (_ & <- & _). auto. }
  rewrite (first_failure_none Hpool).
  destruct (event_loop_spec sched Hpool (le_n _)) as [Hout Hperm].
  destruct (event_loop (pending pool) sched pool) as [tr r].
  simpl in *; subst r. split; [reflexivity|].
  rewrite Hperm. apply started_interleaving.
Qed.

(** *** Concurrent mode *)

Lemma _check_run url :
  crun (_check url) = turn url (checker_site_is_online_async url)
  /\ cend (_check url) = Ok tt.
Proof.
  unfold turn, _check, site_is_online_async.
  destruct (checker_suspends url); simpl;
    destruct (checker_site_is_online_async url) as [[|]|msg]; split; reflexivity.
Qed.

Lemma _asynchronous_check_run sched urls :
  outcome (asyncio_run sched (_asynchronous_check urls)) = Ok tt
  /\ Permutation (trace (asyncio_run sched (_asynchronous_check urls)))
                 (turns checker_site_is_online_async urls).
Proof.
  unfold _asynchronous_check.
  destruct (@asyncio_run_spec sched (map _check urls)) as [Hout Hperm].
  { rewrite Forall_map, Forall_forall. intros url _. apply _check_run. }
  split; [exact Hout|].
  rewrite Hperm. unfold turns. rewrite flat_map_concat_map, map_map.
  erewrite map_ext; [reflexivity|]. intros url. apply _check_run.
Qed.

(** *** Both modes *)

Lemma displays_turns checker urls :
  displays (turns checker urls) = map (fun url => reported url (checker url)) urls.
Proof.
  induction urls as [|url urls IH]; [reflexivity|].
  unfold turns in *; cbn [flat_map map]. unfold displays in *.
  rewrite flat_map_app, IH. unfold turn.
  destruct (checker url) as [[|]|msg]; reflexivity.
Qed.

Lemma begun_turns checker urls : begun (turns checker urls) = urls.
Proof.
  induction urls as [|url urls IH]; [reflexivity|].
  unfold turns in *; cbn [flat_map]. unfold begun in *.
  rewrite flat_map_app, IH. unfold turn.
  destruct (checker url) as [[|]|msg]; reflexivity.
Qed.

Lemma ended_turns checker urls : ended (turns checker urls) = urls.
Proof.
  induction urls as [|url urls IH]; [reflexivity|].
  unfold turns in *; cbn [flat_map]. unfold ended in *.
  rewrite flat_map_app, IH. unfold turn.
  destruct (checker url) as [[|]|msg]; reflexivity.
Qed.

(** Either mode ends well, and its events are the turns of the URLs:
    in order when sequential, interleaved when concurrent. *)
Lemma batch_run_spec asynchronous sched urls :
  outcome (batch_run asynchronous sched urls) = Ok tt
  /\ Permutation (trace (batch_run asynchronous sched urls))
                 (turns (checker_of asynchronous) urls).
Proof.
  destruct asynchronous; simpl.
  - apply _asynchronous_check_run.
  - rewrite _synchronous_check_run. split; reflexivity.
Qed.

Lemma batch_run_displays asynchronous sched urls :
  Permutation (displays (trace (batch_run asynchronous sched urls)))
              (map (fun url => reported url (checker_of asynchronous url)) urls).
Proof.
  rewrite <- displays_turns.
  apply Permutation_flat_map, batch_run_spec.
Qed.

Lemma in_displays asynchronous sched urls r u e :
  In (r, u, e) (displays (trace (batch_run asynchronous sched urls)))
  <-> In u urls /\ reported u (checker_of asynchronous u) = (r, u, e).
Proof.
  split.
  - intros H. eapply Permutation_in in H; [|apply batch_run_displays].
    apply in_map_iff in H as (url & Heq & Hin).
    assert (url = u) by (destruct (checker_of asynchronous url); simpl in Heq; congruence).
    subst url; auto.
  - intros [Hin Heq].
    eapply Permutation_in; [symmetry; apply batch_run_displays|].
    apply in_map_iff. exists u; auto.
Qed.

Lemma main_dispatch user_args :
  main user_args
  = (urls <- _get_websites_urls user_args ;;
     (if negb (nonempty urls) then
        print Stderr (pystr_of_string "Error: no URLs to check "
                      ++ Lit.exclamation_mark) Lit.newline ;;
        sys_exit 1
      else ret tt) ;;
     batch_run (Namespace.asynchronous user_args) io_order urls).
Proof. reflexivity. Qed.

(** *** Strings and files *)

Lemma lstrip_spec s :
  exists pre,
    s = pre ++ PyStr.lstrip s
    /\ forallb PyStr.isspace pre = true
    /\ match PyStr.lstrip s with [] => True | c :: _ => PyStr.isspace c = false end.
Proof.
  induction s as [|c s (pre & Heq & Hpre & Hhd)]; simpl.
  - exists []; auto.
  - destruct (PyStr.isspace c) eqn:Hc.
    + exists (c :: pre); simpl. rewrite Hc, Hpre, <- Heq. auto.
    + exists []; auto.
Qed.

Lemma lstrip_blank s : forallb PyStr.isspace s = true -> PyStr.lstrip s = [].
Proof.
  induction s as [|c s IH]; simpl; [reflexivity|].
  intros H. apply andb_true_iff in H as [-> H]. auto.
Qed.

Lemma forallb_rev {X} (f : X -> bool) l : forallb f (rev l) = forallb f l.
Proof.
  induction l as [|x l IH]; simpl; [reflexivity|].
  rewrite forallb_app, IH. simpl. rewrite andb_true_r. apply andb_comm.
Qed.

Lemma strip_spec s : strips_to s (PyStr.strip s).
Proof.
  unfold strips_to, trimmed, PyStr.strip, PyStr.rstrip.
  destruct (lstrip_spec s) as (pre & Hs & Hpre & Hhd).
  destruct (lstrip_spec (rev (PyStr.lstrip s))) as (tsop & Hr & Htsop & Htl).
  set (u := rev (PyStr.lstrip (rev (PyStr.lstrip s)))) in *.
  assert (Hu : PyStr.lstrip s = u ++ rev tsop).
  { rewrite <- (rev_involutive (PyStr.lstrip s)), Hr, rev_app_distr. reflexivity. }
  repeat split.
  - rewrite Hu in Hhd. destruct u; simpl in *; auto.
  - subst u. rewrite rev_involutive. exact Htl.
  - exists pre, (rev tsop). rewrite <- Hu, forallb_rev. auto.
Qed.

Lemma strip_blank s : forallb PyStr.isspace s = true -> PyStr.strip s = [].
Proof.
  intros H. unfold PyStr.strip, PyStr.rstrip. now rewrite (lstrip_blank _ H).
Qed.

Lemma lines_from_nil s : forall cur, PyStr.lines_from cur s = [] -> cur = [] /\ s = [].
Proof.
  induction s as [|c s IH]; intros cur; simpl.
  - destruct cur; [auto|discriminate].
  - destruct (c =? PyStr.LF)%N; [discriminate|].
    intros H. apply IH in H as [H _]. discriminate.
Qed.

Lemma lines_from_concat s : forall cur, concat (PyStr.lines_from cur s) = rev cur ++ s.
Proof.
  induction s as [|c s IH]; intros cur; simpl.
  - destruct cur; simpl; now rewrite ?app_nil_r.
  - destruct (c =? PyStr.LF)%N; simpl; rewrite IH; simpl;
      now rewrite <- app_assoc.
Qed.

Lemma translate_newlines_nil s : PyStr.translate_newlines s = [] -> s = [].
Proof.
  destruct s as [|c s]; [reflexivity|]. simpl.
  destruct (c =? PyStr.CR)%N; [|discriminate].
  destruct s as [|c' s]; [discriminate|].
  destruct (c' =? PyStr.LF)%N; discriminate.
Qed.

(** A file has no line exactly when it is empty, and its lines are its
    text cut after each newline. *)
Lemma readlines_nil content : PyStr.readlines content = [] <-> content = [].
Proof.
  unfold PyStr.readlines. split.
  - intros H. apply lines_from_nil in H as [_ H]. now apply translate_newlines_nil.
  - intros ->. reflexivity.
Qed.

Lemma readlines_concat content :
  concat (PyStr.readlines content) = PyStr.translate_newlines content.
Proof. unfold PyStr.readlines. now rewrite lines_from_concat. Qed.

(** ** The batch runner *)

Lemma displayed_url_reported checker urls :
  map displayed_url (map (fun url => reported url (checker url)) urls) = urls.
Proof.
  rewrite map_map. rewrite <- (map_id urls) at 2. apply map_ext.
  intros url. destruct (checker url); reflexivity.
Qed.

Lemma one_result_per_url_aux sched urls :
  displays (trace (_synchronous_check urls))
  = map (fun url => reported url (checker_site_is_online url)) urls
  /\ Permutation
       (displays (trace (asyncio_run sched (_asynchronous_check urls))))
       (map (fun url => reported url (checker_site_is_online_async url)) urls).
Proof.
  split.
  - rewrite _synchronous_check_run. apply displays_turns.
  - apply (batch_run_displays true sched urls).
Qed.

(** C1 (amended). In either mode and under every schedule, a batch run
    ends without raising and displays one result per URL; when the probe
    of a URL of the batch raises an exception, that URL is displayed as
    not reachable with [str(err)] as its error detail, and in no other
    way. The detail is as empty as [str(err)] is. *)
Theorem probe_exception_is_reported asynchronous sched urls url msg :
  In url urls ->
  checker_of asynchronous url = Raised msg ->
  outcome (batch_run asynchronous sched urls) = Ok tt
  /\ length (displays (trace (batch_run asynchronous sched urls))) = length urls
  /\ In (false, url, msg) (displays (trace (batch_run asynchronous sched urls)))
  /\ forall r e,
       In (r, url, e) (displays (trace (batch_run asynchronous sched urls))) ->
       r = false /\ e = msg.
Proof.
  intros Hin Hraised. repeat split.
  - apply batch_run_spec.
  - rewrite (Permutation_length (batch_run_displays asynchronous sched urls)).
    apply length_map.
  - apply in_displays. rewrite Hraised. auto.
  - apply in_displays in H as [_ H]. rewrite Hraised in H. simpl in H. congruence.
  - apply in_displays in H as [_ H]. rewrite Hraised in H. simpl in H. congruence.
Qed.

(** C2. In either mode, the display calls of a batch run are those of
    its URLs, one each: in sequential mode in input order, in concurrent
    mode in some order. *)
Theorem one_result_per_url sched urls :
  displays (trace (_synchronous_check urls))
  = map (fun url => reported url (checker_site_is_online url)) urls
  /\ map displayed_url (displays (trace (_synchronous_check urls))) = urls
  /\ Permutation
       (displays (trace (asyncio_run sched (_asynchronous_check urls))))
       (map (fun url => reported url (checker_site_is_online_async url)) urls)
  /\ Permutation
       (map displayed_url
            (displays (trace (asyncio_run sched (_asynchronous_check urls)))))
       urls.
Proof.
  assert (Hs : displays (trace (_synchronous_check urls))
               = map (fun url => reported url (checker_site_is_online url)) urls).
  { rewrite _synchronous_check_run. apply displays_turns. }
  pose proof (batch_run_displays true sched urls) as Ha. simpl in Ha.
  repeat split.
  - exact Hs.
  - rewrite Hs. apply displayed_url_reported.
  - exact Ha.
  - rewrite <- (displayed_url_reported checker_site_is_online_async urls) at 2.
    apply Permutation_map, Ha.
Qed.

(** C3. In sequential mode the results are displayed in input order, and
    when the probe of a URL begins, what has happened so far is exactly
    the whole turns of the URLs before it, in order: for each its probe
    from beginning to end, then the display of its result or error. *)
Theorem sequential_order urls :
  displays (trace (_synchronous_check urls))
  = map (fun url => reported url (checker_site_is_online url)) urls
  /\ forall pre url post,
       trace (_synchronous_check urls) = pre ++ ProbeBegin url :: post ->
       exists done todo,
         urls = done ++ url :: todo
         /\ pre = turns checker_site_is_online done.
Proof.
  split.
  { rewrite _synchronous_check_run. apply displays_turns. }
  rewrite _synchronous_check_run. unfold trace, fst. fold (turns checker_site_is_online urls).
  induction urls as [|u urls IH]; intros pre url post H.
  - destruct pre; discriminate.
  - destruct pre as [|e0 pre].
    { exists [], urls. split; [|reflexivity].
      unfold turns, turn in H; simpl in H.
      destruct (checker_site_is_online u) as [[|]|m]; simpl in H;
        injection H as -> _; reflexivity. }
    assert (Hsplit : exists pre',
               turns checker_site_is_online urls = pre' ++ ProbeBegin url :: post
               /\ e0 :: pre = turn u (checker_site_is_online u) ++ pre').
    { unfold turns in *; cbn [flat_map] in H. unfold turn at 1 in H. unfold turn at 1.
      destruct (checker_site_is_online u) as [[|]|m]; simpl in H |- *;
        (injection H as H0 H; subst e0;
         do 4 (destruct pre as [|? pre]; [discriminate|injection H as H0 H; subst]);
         exists pre; split; [exact H|reflexivity]). }
    destruct Hsplit as (pre' & H' & ->).
    destruct (IH _ _ _ H') as (done & todo & -> & ->).
    exists (u :: done), todo. split; reflexivity.
Qed.

(** C4. When the two probes of the checker agree on the URLs of the
    batch, the display calls of concurrent mode are, under every
    schedule, those of sequential mode up to their order. *)
Theorem concurrent_same_multiset sched urls :
  (forall url, In url urls ->
     checker_site_is_online_async url = checker_site_is_online url) ->
  Permutation (displays (trace (asyncio_run sched (_asynchronous_check urls))))
              (displays (trace (_synchronous_check urls))).
Proof.
  intros Hagree.
  destruct (one_result_per_url_aux sched urls) as (-> & Hperm).
  rewrite Hperm. erewrite map_ext_in; [reflexivity|].
  intros url Hin; simpl. now rewrite Hagree.
Qed.

Lemma begun_app tr tr' : begun (tr ++ tr') = begun tr ++ begun tr'.
Proof. apply flat_map_app. Qed.

(** C5. Whatever the probes do, in either mode: the batch run ends
    without raising, and by then the probe of every URL of the input has
    begun and is over, once each. *)
Theorem no_early_abort sched urls :
  (outcome (_synchronous_check urls) = Ok tt
   /\ begun (trace (_synchronous_check urls)) = urls
   /\ ended (trace (_synchronous_check urls)) = urls)
  /\ (outcome (asyncio_run sched (_asynchronous_check urls)) = Ok tt
      /\ Permutation (begun (trace (asyncio_run sched (_asynchronous_check urls)))) urls
      /\ Permutation (ended (trace (asyncio_run sched (_asynchronous_check urls)))) urls).
Proof.
  split.
  - rewrite _synchronous_check_run; unfold outcome, trace, fst, snd.
    fold (turns checker_site_is_online urls).
    rewrite begun_turns, ended_turns. auto.
  - destruct (_asynchronous_check_run sched urls) as [Hout Hperm].
    assert (Hb : Permutation (begun (trace (asyncio_run sched (_asynchronous_check urls)))) urls).
    { rewrite <- (begun_turns checker_site_is_online_async urls) at 2.
      apply Permutation_flat_map, Hperm. }
    repeat split; [exact Hout|exact Hb|].
    rewrite <- (ended_turns checker_site_is_online_async urls) at 2.
    apply Permutation_flat_map, Hperm.
Qed.

(** C8. In either mode, a URL of the batch whose probe returns [False]
    is displayed as not reachable with the empty error detail, and in
    no other way; an error detail that is not empty is the [str] of an
    exception that the probe of its URL raised. *)
Theorem plain_false_has_no_error_detail asynchronous sched urls url :
  In url urls ->
  checker_of asynchronous url = Returned false ->
  In (false, url, []) (displays (trace (batch_run asynchronous sched urls)))
  /\ (forall r e,
        In (r, url, e) (displays (trace (batch_run asynchronous sched urls))) ->
        r = false /\ e = [])
  /\ (forall r u e,
        In (r, u, e) (displays (trace (batch_run asynchronous sched urls))) ->
        e <> [] -> checker_of asynchronous u = Raised e).
Proof.
  intros Hin Hfalse. repeat split.
  - apply in_displays. rewrite Hfalse. auto.
  - apply in_displays in H as [_ H]. rewrite Hfalse in H. simpl in H. congruence.
  - apply in_displays in H as [_ H]. rewrite Hfalse in H. simpl in H. congruence.
  - intros r u e H He. apply in_displays in H as [_ H].
    destruct (checker_of asynchronous u) as [b|m]; simpl in H.
    + injection H as _ H. congruence.
    + injection H as _ H. congruence.
Qed.

(** ** The entry point and the input file *)

Lemma fs_Some file content : fs file = Some content <-> disk file = Text content.
Proof.
  unfold fs. destruct (disk file); split; congruence.
Qed.

Lemma _read_urls_from_file_spec file :
  file_failure file = None ->
  _read_urls_from_file file = (file_errors file, Ok (file_urls file)).
Proof.
  unfold _read_urls_from_file, file_errors, file_urls, file_failure, fs.
  destruct (disk file) as [|msg|msg|[|c content]]; try discriminate; try reflexivity.
  intros _.
  destruct (PyStr.readlines (c :: content)) as [|l ls] eqn:E; [|reflexivity].
  apply readlines_nil in E. discriminate.
Qed.

Lemma _read_urls_from_file_fails file msg :
  file_failure file = Some msg ->
  _read_urls_from_file file = ([], Err (Exception msg)).
Proof.
  unfold _read_urls_from_file, file_failure.
  destruct (disk file); intros [= <-]; reflexivity.
Qed.

Lemma _get_websites_urls_spec user_args :
  input_failure user_args = None ->
  _get_websites_urls user_args = (input_errors user_args, Ok (combined_urls user_args)).
Proof.
  unfold _get_websites_urls, input_errors, combined_urls, input_failure.
  destruct (PyStr.truthy (Namespace.input_file user_args)); [|reflexivity].
  intros Hok. rewrite (_read_urls_from_file_spec _ Hok). simpl. now rewrite !app_nil_r.
Qed.

Lemma _get_websites_urls_fails user_args msg :
  input_failure user_args = Some msg ->
  _get_websites_urls user_args = ([], Err (Exception msg)).
Proof.
  unfold _get_websites_urls, input_failure.
  destruct (PyStr.truthy (Namespace.input_file user_args)); [|discriminate].
  intros Hfail. rewrite (_read_urls_from_file_fails _ Hfail). reflexivity.
Qed.

(** The reader of the URLs returns exactly when nothing fails. *)
Lemma _get_websites_urls_returns user_args l :
  outcome (_get_websites_urls user_args) = Ok l ->
  input_failure user_args = None /\ l = combined_urls user_args.
Proof.
  destruct (input_failure user_args) as [msg|] eqn:E.
  - rewrite (_get_websites_urls_fails _ E). discriminate.
  - rewrite (_get_websites_urls_spec _ E). intros [= <-]. auto.
Qed.

Lemma main_spec user_args :
  input_failure user_args = None ->
  main user_args
  = match combined_urls user_args with
    | [] => (input_errors user_args ++ [Print Stderr no_urls_message],
             Err (SystemExit 1))
    | _ :: _ =>
        (input_errors user_args
         ++ trace (batch_run (Namespace.asynchronous user_args) io_order
                             (combined_urls user_args)),
         outcome (batch_run (Namespace.asynchronous user_args) io_order
                            (combined_urls user_args)))
    end.
Proof.
  intros Hok. rewrite main_dispatch, (_get_websites_urls_spec _ Hok).
  destruct (combined_urls user_args) as [|u urls]; [reflexivity|].
  cbv [bind nonempty negb ret].
  destruct (batch_run _ io_order (u :: urls)) as [tr r]. reflexivity.
Qed.

(** When the reading of the input file raises, [main] ends by the same
    exception, before it has written anything or begun any probe. *)
Lemma main_fails user_args msg :
  input_failure user_args = Some msg ->
  main user_args = ([], Err (Exception msg)).
Proof.
  intros Hfail. rewrite main_dispatch, (_get_websites_urls_fails _ Hfail). reflexivity.
Qed.

Lemma input_errors_stderr user_args :
  forallb is_stderr (input_errors user_args) = true
  /\ begun (input_errors user_args) = []
  /\ displays (input_errors user_args) = [].
Proof.
  unfold input_errors, file_errors.
  destruct (PyStr.truthy _); [|auto].
  destruct (disk _) as [|msg|msg|[|c content]]; auto.
Qed.

Lemma batch_run_begun asynchronous sched urls :
  Permutation (begun (trace (batch_run asynchronous sched urls))) urls.
Proof.
  rewrite <- (begun_turns (checker_of asynchronous) urls) at 2.
  apply Permutation_flat_map, batch_run_spec.
Qed.

(** The process ends with a status other than 0 exactly when there is
    no URL to check. *)
Lemma main_exit_status user_args :
  input_failure user_args = None ->
  exit_status (outcome (main user_args)) <> 0%N <-> combined_urls user_args = [].
Proof.
  intros Hok. rewrite (main_spec _ Hok).
  destruct (combined_urls user_args) as [|u urls] eqn:E.
  - simpl. split; [reflexivity|discriminate].
  - unfold outcome at 1, snd.
    rewrite (proj1 (batch_run_spec _ io_order (u :: urls))). simpl.
    split; [congruence|discriminate].
Qed.

(** C6. When the URLs of the command line and of the input file together
    are none, [main] writes its error message to the standard error
    stream and exits with status 1: the process ends with a status other
    than 0, no probe has begun, nothing has been displayed, and all that
    was written went to the standard error stream. *)
Theorem main_no_urls user_args :
  outcome (_get_websites_urls user_args) = Ok [] ->
  trace (main user_args)
  = trace (_get_websites_urls user_args) ++ [Print Stderr no_urls_message]
  /\ outcome (main user_args) = Err (SystemExit 1)
  /\ exit_status (outcome (main user_args)) <> 0%N
  /\ begun (trace (main user_args)) = []
  /\ displays (trace (main user_args)) = []
  /\ forallb is_stderr (trace (main user_args)) = true.
Proof.
  intros Hnone. destruct (_get_websites_urls_returns _ Hnone) as [Hok Hcomb].
  destruct (input_errors_stderr user_args) as (Herr & Hbegun & Hdisp).
  rewrite (_get_websites_urls_spec _ Hok), (main_spec _ Hok), <- Hcomb.
  unfold trace, outcome, fst, snd.
  unfold begun, displays in *. rewrite !flat_map_app, forallb_app, Hbegun, Hdisp, Herr.
  repeat split; discriminate.
Qed.

(** C7 (amended). With an input file given: when the file can be read
    and is not empty, it has at least one line, its lines are its text
    cut after each newline, and the URLs to check are those of the
    command line followed by the lines of the file, each without its
    leading and trailing white space, and nothing is written; when the
    file is read as empty, or when [is_file] returns [False] for it, an
    error message is written to the standard error stream and the URLs
    are those of the command line. *)
Theorem input_file_urls_appended user_args :
  PyStr.truthy (Namespace.input_file user_args) = true ->
  (forall content,
     fs (Namespace.input_file user_args) = Some content ->
     content <> [] ->
     _get_websites_urls user_args
     = ([], Ok (Namespace.urls user_args
                ++ map PyStr.strip (PyStr.readlines content)))
     /\ PyStr.readlines content <> []
     /\ concat (PyStr.readlines content) = PyStr.translate_newlines content
     /\ Forall2 strips_to (PyStr.readlines content)
                (map PyStr.strip (PyStr.readlines content)))
  /\ (fs (Namespace.input_file user_args) = Some [] ->
      _get_websites_urls user_args
      = ([Print Stderr (empty_file_message (Namespace.input_file user_args))],
         Ok (Namespace.urls user_args)))
  /\ (disk (Namespace.input_file user_args) = Missing ->
      _get_websites_urls user_args
      = ([Print Stderr not_found_message], Ok (Namespace.urls user_args))).
Proof.
  intros Hfile.
  assert (Hspec : file_failure (Namespace.input_file user_args) = None ->
                  _get_websites_urls user_args
                  = (file_errors (Namespace.input_file user_args),
                     Ok (Namespace.urls user_args
                         ++ file_urls (Namespace.input_file user_args)))).
  { intros Hok. rewrite _get_websites_urls_spec.
    - unfold input_errors, combined_urls. now rewrite Hfile.
    - unfold input_failure. now rewrite Hfile. }
  unfold file_failure, file_errors, file_urls, fs in Hspec. unfold fs.
  repeat split.
  - destruct (disk (Namespace.input_file user_args)) as [|m|m|text];
      try discriminate.
    injection H as ->. rewrite Hspec by reflexivity.
    destruct content; [contradiction|reflexivity].
  - now rewrite readlines_nil.
  - apply readlines_concat.
  - induction (PyStr.readlines content) as [|line lines IH]; constructor;
      [apply strip_spec|exact IH].
  - destruct (disk (Namespace.input_file user_args)) as [|m|m|text];
      try discriminate.
    intros [= ->]. rewrite Hspec by reflexivity. simpl. now rewrite app_nil_r.
  - intros Hmissing. rewrite Hmissing in Hspec. rewrite Hspec by reflexivity.
    simpl. now rewrite app_nil_r.
Qed.

(** C9. An input file that exists and has at least one line, all of
    whose lines are white space only, is not taken for empty: the reader
    writes no message and returns one empty string per line, and [main]
    runs the batch on the URLs of the command line followed by these
    empty strings, so that the probe of the empty URL begins. *)
Theorem blank_lines_become_empty_urls user_args content :
  PyStr.truthy (Namespace.input_file user_args) = true ->
  fs (Namespace.input_file user_args) = Some content ->
  content <> [] ->
  Forall (fun line => forallb PyStr.isspace line = true) (PyStr.readlines content) ->
  1 <= length (PyStr.readlines content)
  /\ _read_urls_from_file (Namespace.input_file user_args)
     = ([], Ok (repeat [] (length (PyStr.readlines content))))
  /\ main user_args
     = batch_run (Namespace.asynchronous user_args) io_order
                 (Namespace.urls user_args
                  ++ repeat [] (length (PyStr.readlines content)))
  /\ In [] (begun (trace (main user_args))).
Proof.
  intros Hfile Hfs Hne Hblank.
  assert (Hlen : 1 <= length (PyStr.readlines content)).
  { destruct (PyStr.readlines content) eqn:E; [|simpl; lia].
    apply readlines_nil in E. contradiction. }
  assert (Hurls : file_urls (Namespace.input_file user_args)
                  = repeat [] (length (PyStr.readlines content))).
  { unfold file_urls. rewrite Hfs. clear Hlen.
    induction Hblank as [|line lines Hline _ IH]; simpl; [reflexivity|].
    now rewrite (strip_blank _ Hline), IH. }
  assert (Hdisk : disk (Namespace.input_file user_args) = Text content)
    by now apply fs_Some.
  assert (Hok : file_failure (Namespace.input_file user_args) = None)
    by (unfold file_failure; now rewrite Hdisk).
  assert (Hok' : input_failure user_args = None)
    by (unfold input_failure; now rewrite Hfile).
  assert (Herrs : file_errors (Namespace.input_file user_args) = []).
  { unfold file_errors. rewrite Hdisk. destruct content; [contradiction|reflexivity]. }
  assert (Hmain : main user_args
     = batch_run (Namespace.asynchronous user_args) io_order
                 (Namespace.urls user_args
                  ++ repeat [] (length (PyStr.readlines content)))).
  { rewrite (main_spec _ Hok'). unfold combined_urls, input_errors.
    rewrite Hfile, Herrs, Hurls.
    destruct (PyStr.readlines content) as [|l ls]; [simpl in Hlen; lia|].
    destruct (Namespace.urls user_args ++ repeat [] (length (l :: ls))) eqn:E.
    { apply app_eq_nil in E as [_ E]. discriminate. }
    simpl. now destruct (batch_run _ _ _). }
  repeat split; [exact Hlen| |exact Hmain|].
  - rewrite (_read_urls_from_file_spec _ Hok), Herrs, Hurls. reflexivity.
  - rewrite Hmain.
    eapply Permutation_in; [symmetry; apply batch_run_begun|].
    apply in_or_app; right.
    destruct (PyStr.readlines content); [simpl in Hlen; lia|left; reflexivity].
Qed.

(** C10 (amended). With an input file given that is read as empty, or
    for which [is_file] returns [False], the reader writes an error
    message and returns the empty list, and [main] goes on as it does on
    the same command line without the input file, after that message:
    when URLs were given on the command line, it ends without raising
    and displays one result for each of them; the process ends with a
    status other than 0 only when none was given. *)
Theorem bad_input_file_does_not_abort user_args :
  PyStr.truthy (Namespace.input_file user_args) = true ->
  disk (Namespace.input_file user_args) = Missing
  \/ disk (Namespace.input_file user_args) = Text [] ->
  exists msg,
    _read_urls_from_file (Namespace.input_file user_args)
    = ([Print Stderr msg], Ok [])
    /\ main user_args
       = (Print Stderr msg :: trace (main (without_input_file user_args)),
          outcome (main (without_input_file user_args)))
    /\ (Namespace.urls user_args <> [] ->
        outcome (main user_args) = Ok tt
        /\ Permutation
             (displays (trace (main user_args)))
             (map (fun url =>
                     reported url (checker_of (Namespace.asynchronous user_args) url))
                  (Namespace.urls user_args)))
    /\ (exit_status (outcome (main user_args)) <> 0%N
        <-> Namespace.urls user_args = []).
Proof.
  intros Hfile Hbad.
  assert (Hfile0 : exists msg,
            file_errors (Namespace.input_file user_args) = [Print Stderr msg]
            /\ file_urls (Namespace.input_file user_args) = []
            /\ file_failure (Namespace.input_file user_args) = None).
  { unfold file_errors, file_urls, file_failure, fs.
    destruct Hbad as [-> | ->]; eexists; repeat split; reflexivity. }
  destruct Hfile0 as (msg & Herrs & Hurls & Hok).
  assert (Hok' : input_failure user_args = None)
    by (unfold input_failure; now rewrite Hfile).
  assert (Hok0 : input_failure (without_input_file user_args) = None) by reflexivity.
  assert (Hcomb : combined_urls user_args = Namespace.urls user_args).
  { unfold combined_urls. rewrite Hfile, Hurls. apply app_nil_r. }
  assert (Hin : input_errors user_args = [Print Stderr msg]).
  { unfold input_errors. now rewrite Hfile. }
  assert (Hmain : main user_args
       = (Print Stderr msg :: trace (main (without_input_file user_args)),
          outcome (main (without_input_file user_args)))).
  { rewrite (main_spec _ Hok'), (main_spec _ Hok0), Hcomb, Hin.
    unfold combined_urls, input_errors, without_input_file; simpl.
    destruct (Namespace.urls user_args); reflexivity. }
  exists msg. repeat split.
  - rewrite (_read_urls_from_file_spec _ Hok), Herrs, Hurls. reflexivity.
  - exact Hmain.
  - rewrite (main_spec _ Hok'), Hcomb.
    destruct (Namespace.urls user_args); [contradiction|].
    apply batch_run_spec.
  - rewrite (main_spec _ Hok'), Hcomb, Hin.
    destruct (Namespace.urls user_args) as [|u urls] eqn:E; [contradiction|].
    unfold trace at 1, fst. rewrite <- E.
    change (displays ([Print Stderr msg] ++ ?t)) with (displays t).
    apply batch_run_displays.
  - rewrite <- Hcomb. now apply main_exit_status.
  - rewrite <- Hcomb. now apply main_exit_status.
Qed.

(** ** Further properties *)

(** *** White space and lines *)

Lemma lstrip_app l m :
  PyStr.lstrip (l ++ m)
  = match PyStr.lstrip l with
    | [] => PyStr.lstrip m
    | _ :: _ => PyStr.lstrip l ++ m
    end.
Proof.
  induction l as [|c l IH]; simpl; [reflexivity|].
  destruct (PyStr.isspace c); [exact IH|reflexivity].
Qed.

Lemma rstrip_snoc_space l c :
  PyStr.isspace c = true -> PyStr.rstrip (l ++ [c]) = PyStr.rstrip l.
Proof.
  intros Hc. unfold PyStr.rstrip. rewrite rev_app_distr. simpl. now rewrite Hc.
Qed.

Lemma strip_snoc_space l c :
  PyStr.isspace c = true -> PyStr.strip (l ++ [c]) = PyStr.strip l.
Proof.
  intros Hc. unfold PyStr.strip. rewrite lstrip_app.
  destruct (PyStr.lstrip l) as [|x xs] eqn:E.
  - simpl. rewrite Hc. reflexivity.
  - rewrite <- E. now apply rstrip_snoc_space.
Qed.

Lemma strip_incl s x : In x (PyStr.strip s) -> In x s.
Proof.
  destruct (strip_spec s) as (_ & pre & post & Heq & _).
  intros H. rewrite Heq. apply in_or_app; right. apply in_or_app; now left.
Qed.

Lemma strip_trimmed u : trimmed u -> PyStr.strip u = u.
Proof.
  intros [Hhd Htl]. unfold PyStr.strip, PyStr.rstrip.
  assert (Hl : PyStr.lstrip u = u).
  { destruct u as [|c u]; [reflexivity|]. simpl. now rewrite Hhd. }
  rewrite Hl.
  destruct (rev u) as [|c r] eqn:E.
  - apply (f_equal (@rev _)) in E. rewrite rev_involutive in E. now subst u.
  - simpl. rewrite Htl. rewrite <- E. apply rev_involutive.
Qed.

(** X11. [strip] leaves a string as it is exactly when the string has no
    white space at either end; stripping twice is stripping once. *)
Theorem strip_fixpoint s :
  (PyStr.strip s = s <-> trimmed s)
  /\ PyStr.strip (PyStr.strip s) = PyStr.strip s.
Proof.
  split; [split|].
  - intros H. rewrite <- H. apply strip_spec.
  - apply strip_trimmed.
  - apply strip_trimmed, strip_spec.
Qed.

(** *** Files of URLs *)

Lemma translate_newlines_app u s :
  ~ In PyStr.CR u ->
  PyStr.translate_newlines (u ++ s) = u ++ PyStr.translate_newlines s.
Proof.
  induction u as [|c u IH]; intros Hu; simpl; [reflexivity|].
  destruct (N.eqb_spec c PyStr.CR) as [->|_]; [destruct Hu; now left|].
  rewrite IH; [reflexivity|]. intros H; apply Hu; now right.
Qed.

Lemma translate_newlines_terminator e rest :
  (e = OldMac -> hd_error rest <> Some PyStr.LF) ->
  PyStr.translate_newlines (terminator e ++ rest)
  = PyStr.LF :: PyStr.translate_newlines rest.
Proof.
  intros Hhd. destruct e; try reflexivity.
  destruct rest as [|c rest]; [reflexivity|].
  change (PyStr.translate_newlines (terminator OldMac ++ c :: rest))
    with (if (c =? PyStr.LF)%N then PyStr.LF :: PyStr.translate_newlines rest
          else PyStr.LF :: PyStr.translate_newlines (c :: rest)).
  destruct (N.eqb_spec c PyStr.LF) as [->|_]; [|reflexivity].
  now destruct (Hhd eq_refl).
Qed.

Lemma unlines_OldMac_hd urls last :
  Forall plain urls -> ~ In PyStr.LF last ->
  hd_error (unlines OldMac urls ++ last) <> Some PyStr.LF.
Proof.
  intros Hurls Hlast.
  destruct Hurls as [|u urls (_ & Hu & _) _]; simpl.
  - destruct last as [|c last]; [discriminate|].
    simpl. intros [= ->]. apply Hlast; now left.
  - destruct u as [|c u]; [discriminate|].
    simpl. intros [= ->]. apply Hu; now left.
Qed.

Lemma translate_newlines_unlines e urls last :
  Forall plain urls -> ~ In PyStr.LF last -> ~ In PyStr.CR last ->
  PyStr.translate_newlines (unlines e urls ++ last) = unlines Unix urls ++ last.
Proof.
  intros Hurls Hlf Hcr.
  induction Hurls as [|u urls Hu Hurls IH]; simpl.
  - rewrite <- (app_nil_r last) at 1.
    rewrite translate_newlines_app by assumption. simpl. apply app_nil_r.
  - rewrite <- !app_assoc.
    rewrite translate_newlines_app by apply Hu.
    rewrite translate_newlines_terminator, IH; [reflexivity|].
    intros ->. now apply unlines_OldMac_hd.
Qed.

Lemma lines_from_app u s : forall cur,
  ~ In PyStr.LF u ->
  PyStr.lines_from cur (u ++ s) = PyStr.lines_from (rev u ++ cur) s.
Proof.
  induction u as [|c u IH]; intros cur Hu; simpl; [reflexivity|].
  destruct (N.eqb_spec c PyStr.LF) as [->|_]; [destruct Hu; now left|].
  rewrite IH, <- app_assoc; [reflexivity|]. intros H; apply Hu; now right.
Qed.

Lemma lines_from_unlines urls last :
  Forall plain urls -> ~ In PyStr.LF last ->
  PyStr.lines_from [] (unlines Unix urls ++ last)
  = map (fun u => u ++ [PyStr.LF]) urls
    ++ match last with [] => [] | _ :: _ => [last] end.
Proof.
  intros Hurls Hlast.
  induction Hurls as [|u urls (_ & Hu & _) _ IH]; simpl.
  - rewrite <- (app_nil_r last) at 1. rewrite lines_from_app by assumption.
    simpl. rewrite app_nil_r.
    destruct last as [|c last]; [reflexivity|].
    destruct (rev (c :: last)) as [|x xs] eqn:E.
    + apply (f_equal (@rev _)) in E. rewrite rev_involutive in E. discriminate.
    + rewrite <- E, rev_involutive. reflexivity.
  - rewrite <- !app_assoc. rewrite lines_from_app by assumption.
    simpl. rewrite app_nil_r, rev_involutive, IH. reflexivity.
Qed.

Lemma strip_plain_line u : plain u -> PyStr.strip (u ++ [PyStr.LF]) = u.
Proof.
  intros (Hu & _). rewrite strip_snoc_space by reflexivity.
  now apply strip_trimmed.
Qed.

Lemma file_urls_unlines e urls last content :
  Forall plain urls -> plain last ->
  content = unlines e urls ++ last ->
  map PyStr.strip (PyStr.readlines content)
  = urls ++ match last with [] => [] | _ :: _ => [last] end.
Proof.
  intros Hurls (Hlast & Hlf & Hcr) ->. unfold PyStr.readlines.
  rewrite translate_newlines_unlines, lines_from_unlines by assumption.
  rewrite map_app, map_map. f_equal.
  - rewrite <- (map_id urls) at 2. apply map_ext_in.
    intros u Hu. apply strip_plain_line.
    rewrite Forall_forall in Hurls. now apply Hurls.
  - destruct last as [|c last]; [reflexivity|]. simpl. f_equal.
    now apply strip_trimmed.
Qed.

Lemma _read_urls_from_file_text file content :
  fs file = Some content ->
  content <> [] ->
  _read_urls_from_file file = ([], Ok (map PyStr.strip (PyStr.readlines content))).
Proof.
  intros Hfs Hne. apply fs_Some in Hfs.
  rewrite _read_urls_from_file_spec by (unfold file_failure; now rewrite Hfs).
  unfold file_errors, file_urls, fs. rewrite Hfs.
  destruct content; [contradiction|reflexivity].
Qed.


(** X10. The end of the last line is optional: when the last URL of
    such a file is not empty and its line is not ended, the file is read
    back as the same list of URLs. *)
Theorem file_read_back_open_line e urls last file :
  Forall plain urls ->
  plain last ->
  last <> [] ->
  fs file = Some (unlines e urls ++ last) ->
  _read_urls_from_file file = ([], Ok (urls ++ [last])).
Proof.
  intros Hurls Hlast Hne Hfs.
  rewrite (_read_urls_from_file_text _ Hfs).
  - rewrite (@file_urls_unlines e urls last (unlines e urls ++ last)); try easy.
    destruct last as [|c last]; [contradiction|reflexivity].
  - intros E. apply app_eq_nil in E as [_ E]. contradiction.
Qed.

Lemma translate_newlines_no_CR n : forall s,
  length s <= n -> ~ In PyStr.CR (PyStr.translate_newlines s).
Proof.
  induction n as [|n IH]; intros s Hlen.
  - destruct s; [intros []|simpl in Hlen; lia].
  - destruct s as [|c s]; [intros []|]. simpl in Hlen. simpl.
    destruct (N.eqb_spec c PyStr.CR) as [->|Hc].
    + destruct s as [|c' s]; [intros [H|[]]; discriminate|].
      simpl in Hlen.
      destruct (c' =? PyStr.LF)%N; intros [H|H]; try discriminate;
        revert H; apply IH; simpl; lia.
    + intros [H|H]; [congruence|]. revert H. apply IH. lia.
Qed.

Lemma lines_from_shape s : forall cur,
  ~ In PyStr.LF cur ->
  Forall (fun line => exists body,
            ~ In PyStr.LF body /\ (line = body ++ [PyStr.LF] \/ line = body))
         (PyStr.lines_from cur s).
Proof.
  induction s as [|c s IH]; intros cur Hcur; simpl.
  - destruct cur as [|x cur]; constructor; [|constructor].
    exists (rev (x :: cur)). split; [|now right].
    intros H. apply in_rev in H. contradiction.
  - destruct (N.eqb_spec c PyStr.LF) as [->|Hc].
    + constructor; [|apply IH; intros []].
      exists (rev cur). split; [|now left].
      intros H. apply in_rev in H. contradiction.
    + apply IH. intros [H|H]; [congruence|contradiction].
Qed.

(** X8. Whatever the file holds, every URL that the reader returns is
    plain: no white space at either end, no line feed and no carriage
    return in it. *)
Theorem file_urls_plain file l :
  outcome (_read_urls_from_file file) = Ok l ->
  Forall plain l.
Proof.
  destruct (file_failure file) as [msg|] eqn:Hok.
  { rewrite (_read_urls_from_file_fails _ Hok). discriminate. }
  rewrite (_read_urls_from_file_spec _ Hok). unfold outcome, snd, file_urls.
  intros [= <-].
  destruct (fs file) as [content|]; [|constructor].
  rewrite Forall_map, Forall_forall. intros line Hline.
  assert (Hcr : ~ In PyStr.CR line).
  { intros H. apply (@translate_newlines_no_CR (length content) content (le_n _)).
    rewrite <- readlines_concat. apply in_concat. eauto. }
  pose proof (@lines_from_shape (PyStr.translate_newlines content) [] (fun H => H))
    as Hshape.
  rewrite Forall_forall in Hshape.
  destruct (Hshape line Hline) as (body & Hbody & Heq).
  repeat split.
  - apply strip_spec.
  - apply strip_spec.
  - destruct Heq as [-> | ->].
    + rewrite strip_snoc_space by reflexivity.
      intros H. apply strip_incl in H. contradiction.
    + intros H. apply strip_incl in H. contradiction.
  - intros H. apply strip_incl in H. contradiction.
Qed.

(** *** The order of a concurrent run *)

Lemma pending_waiting pool :
  Forall checking pool -> pending pool = length (waiting pool).
Proof.
  unfold pending, waiting.
  induction 1 as [|t pool Ht _ IH]; simpl; [reflexivity|].
  rewrite IH. destruct t as [url k|r]; simpl; [|reflexivity].
  destruct (advance_spec (k (checker_site_is_online_async url))) as (_ & _ & ->).
  rewrite Ht. reflexivity.
Qed.

Lemma first_failure_checking pool :
  Forall checking pool -> first_failure pool = None.
Proof.
  induction 1 as [|t pool Ht _ IH]; simpl; [reflexivity|].
  destruct t as [url k|[a|e]]; auto. discriminate.
Qed.

Lemma event_loop_order fuel : forall sched pool,
  Forall checking pool ->
  pending pool <= fuel ->
  exists order,
    Permutation order (waiting pool)
    /\ event_loop fuel sched pool
       = (flat_map (fun url => finish url (checker_site_is_online_async url)) order,
          Ok tt).
Proof.
  induction fuel as [|fuel IH]; intros sched pool Hpool Hfuel; cbn [event_loop];
    destruct (select (hd 0 sched) pool) as [[[before [url k]] after]|] eqn:Hsel.
  - apply select_split in Hsel; subst pool.
    rewrite pending_app in Hfuel; simpl in Hfuel; lia.
  - apply select_none in Hsel as [_ Hsel]. rewrite pending_waiting in Hsel by assumption.
    exists []. destruct (waiting pool); [split; [constructor|reflexivity]|discriminate].
  - apply select_split in Hsel; subst pool.
    apply Forall_app in Hpool as [Hb Ha]. inversion Ha as [|? ? Hk Ha']; subst.
    simpl in Hk. rewrite Hk.
    destruct (IH (tl sched) (before ++ Finished (Ok tt) :: after)) as (order & Hperm & Heq).
    { apply Forall_app; split; [assumption|]. constructor; [reflexivity|assumption]. }
    { rewrite pending_app in *. simpl in *. lia. }
    exists (url :: order). split.
    + unfold waiting in *. rewrite flat_map_app in *. simpl in *.
      now apply Permutation_cons_app.
    + rewrite Heq. reflexivity.
  - apply select_none in Hsel as [_ Hsel]. rewrite pending_waiting in Hsel by assumption.
    exists []. destruct (waiting pool); [split; [constructor|reflexivity]|discriminate].
Qed.

Lemma _check_start url :
  fst (advance (_check url)) = start url
  /\ checking (snd (advance (_check url)))
  /\ waiting [snd (advance (_check url))]
     = if checker_suspends url then [url] else [].
Proof.
  unfold start, turn, _check, site_is_online_async.
  destruct (checker_suspends url); simpl.
  - repeat split. intros [[|]|msg]; reflexivity.
  - destruct (checker_site_is_online_async url) as [[|]|msg]; repeat split.
Qed.

Lemma _asynchronous_check_pool urls :
  concat (map fst (map advance (map _check urls))) = flat_map start urls
  /\ Forall checking (map snd (map advance (map _check urls)))
  /\ waiting (map snd (map advance (map _check urls))) = filter checker_suspends urls.
Proof.
  induction urls as [|url urls (IH1 & IH2 & IH3)]; simpl.
  - repeat split. constructor.
  - destruct (_check_start url) as (Hfst & Hchk & Hwait).
    rewrite IH1, Hfst. repeat split; [constructor; assumption|].
    change (waiting ([snd (advance (_check url))]
                     ++ map snd (map advance (map _check urls)))
            = (if checker_suspends url
               then url :: filter checker_suspends urls
               else filter checker_suspends urls)).
    unfold waiting in *. rewrite flat_map_app, Hwait, IH3.
    destruct (checker_suspends url); reflexivity.
Qed.

(** A concurrent batch is the first steps of the tasks, in input order,
    and then the ends of the suspended probes, in some order. *)
Lemma _asynchronous_check_trace sched urls :
  exists order,
    Permutation order (filter checker_suspends urls)
    /\ asyncio_run sched (_asynchronous_check urls)
       = (flat_map start urls
          ++ flat_map (fun url => finish url (checker_site_is_online_async url)) order,
          Ok tt).
Proof.
  unfold _asynchronous_check, asyncio_run; cbv zeta.
  destruct (_asynchronous_check_pool urls) as (Hfst & Hpool & Hwait).
  rewrite Hfst, (first_failure_checking Hpool).
  destruct (@event_loop_order _ sched _ Hpool (le_n _)) as (order & Hperm & Heq).
  exists order. rewrite Hwait in Hperm. split; [exact Hperm|].
  rewrite Heq. reflexivity.
Qed.

Lemma begun_start urls : begun (flat_map start urls) = urls.
Proof.
  induction urls as [|url urls IH]; [reflexivity|].
  cbn [flat_map]. rewrite begun_app, IH. unfold start, turn.
  destruct (checker_suspends url); [reflexivity|].
  destruct (checker_site_is_online_async url) as [[|]|msg]; reflexivity.
Qed.

Lemma begun_finish order :
  begun (flat_map (fun url => finish url (checker_site_is_online_async url)) order) = [].
Proof.
  induction order as [|url order IH]; [reflexivity|].
  cbn [flat_map]. rewrite begun_app, IH. unfold finish, shown.
  destruct (checker_site_is_online_async url) as [[|]|msg]; reflexivity.
Qed.

Lemma displays_start urls :
  displays (flat_map start urls)
  = map (fun url => reported url (checker_site_is_online_async url))
        (ended (flat_map start urls))
  /\ displays (flat_map start urls)
     = map (fun url => reported url (checker_site_is_online_async url))
           (filter (fun url => negb (checker_suspends url)) urls).
Proof.
  unfold displays, ended.
  induction urls as [|url urls [IH1 IH2]]; [split; reflexivity|].
  change (flat_map start (url :: urls)) with (start url ++ flat_map start urls).
  cbn [filter]. rewrite !flat_map_app, map_app.
  split; [rewrite IH1|rewrite IH2]; unfold start, turn;
    (destruct (checker_suspends url); [reflexivity|]);
    destruct (checker_site_is_online_async url) as [[|]|msg] eqn:E;
    simpl; rewrite ?E; reflexivity.
Qed.

Lemma displays_finish order :
  displays (flat_map (fun url => finish url (checker_site_is_online_async url)) order)
  = map (fun url => reported url (checker_site_is_online_async url)) order
  /\ ended (flat_map (fun url => finish url (checker_site_is_online_async url)) order)
     = order.
Proof.
  unfold displays, ended.
  induction order as [|url order [IH1 IH2]]; [split; reflexivity|].
  change (flat_map (fun url => finish url (checker_site_is_online_async url))
                   (url :: order))
    with (finish url (checker_site_is_online_async url)
          ++ flat_map (fun url => finish url (checker_site_is_online_async url)) order).
  rewrite !flat_map_app.
  split; [rewrite IH1|rewrite IH2]; unfold finish, shown;
    destruct (checker_site_is_online_async url) as [[|]|msg] eqn:E;
    simpl; rewrite ?E; reflexivity.
Qed.

(** X1. In a concurrent batch the probes begin in input order, whatever
    the order in which they are over, and the results are displayed in
    the order in which the probes are over: the result of a probe is
    displayed before another probe is over. *)
Theorem concurrent_completion_order sched urls :
  begun (trace (asyncio_run sched (_asynchronous_check urls))) = urls
  /\ displays (trace (asyncio_run sched (_asynchronous_check urls)))
     = map (fun url => reported url (checker_site_is_online_async url))
           (ended (trace (asyncio_run sched (_asynchronous_check urls))))
  /\ Permutation (ended (trace (asyncio_run sched (_asynchronous_check urls)))) urls.
Proof.
  destruct (_asynchronous_check_trace sched urls) as (order & _ & Heq).
  pose proof (_asynchronous_check_run sched urls) as [_ Hperm].
  rewrite Heq in *. unfold trace, fst in *.
  repeat split.
  - now rewrite begun_app, begun_start, begun_finish, app_nil_r.
  - unfold displays, ended. rewrite !flat_map_app, map_app.
    f_equal; [apply displays_start|].
    destruct (displays_finish order) as [Hd He].
    unfold displays, ended in Hd, He. now rewrite Hd, He.
  - rewrite <- (ended_turns checker_site_is_online_async urls) at 2.
    apply Permutation_flat_map, Hperm.
Qed.

(** *** What a batch displays *)

Lemma turns_no_stderr checker urls : no_stderr (turns checker urls).
Proof.
  unfold no_stderr, turns. apply Forall_flat_map, Forall_forall.
  intros url _. unfold turn.
  destruct (checker url) as [[|]|msg]; repeat constructor.
Qed.

Lemma no_stderr_Permutation tr tr' :
  Permutation tr tr' -> no_stderr tr' -> no_stderr tr.
Proof.
  unfold no_stderr. rewrite !Forall_forall. intros Hperm H ev Hev.
  apply H. eapply Permutation_in; eassumption.
Qed.

(** X2. A batch run writes nothing to the standard error stream, in
    either mode and whatever the probes do: a failure of a probe only
    shows in the report of its URL on the standard output. *)
Theorem batch_run_no_stderr asynchronous sched urls :
  no_stderr (trace (batch_run asynchronous sched urls)).
Proof.
  eapply no_stderr_Permutation.
  - apply batch_run_spec.
  - apply turns_no_stderr.
Qed.

(** X3. In either mode a URL is displayed as online exactly when it is
    a URL of the batch whose probe returned [True], and then without an
    error detail. *)
Theorem online_iff_probe_true asynchronous sched urls url e :
  In (true, url, e) (displays (trace (batch_run asynchronous sched urls)))
  <-> In url urls /\ checker_of asynchronous url = Returned true /\ e = [].
Proof.
  rewrite in_displays. split.
  - intros [Hin H]. destruct (checker_of asynchronous url) as [[|]|msg];
      simpl in H; try discriminate. injection H as <-. auto.
  - intros (Hin & -> & ->). auto.
Qed.

Lemma batch_run_ended asynchronous sched urls :
  Permutation (ended (trace (batch_run asynchronous sched urls))) urls.
Proof.
  rewrite <- (ended_turns (checker_of asynchronous) urls) at 2.
  apply Permutation_flat_map, batch_run_spec.
Qed.

(** X4. URLs are not deduplicated: in either mode a URL is probed, and
    its result displayed, as many times as it occurs in the input. *)
Theorem urls_not_deduplicated asynchronous sched urls url :
  count_occ (list_eq_dec N.eq_dec)
            (begun (trace (batch_run asynchronous sched urls))) url
  = count_occ (list_eq_dec N.eq_dec) urls url
  /\ count_occ (list_eq_dec N.eq_dec)
               (ended (trace (batch_run asynchronous sched urls))) url
     = count_occ (list_eq_dec N.eq_dec) urls url
  /\ count_occ (list_eq_dec N.eq_dec)
               (map displayed_url
                    (displays (trace (batch_run asynchronous sched urls)))) url
     = count_occ (list_eq_dec N.eq_dec) urls url.
Proof.
  repeat split; apply Permutation_count_occ.
  - apply batch_run_begun.
  - apply batch_run_ended.
  - rewrite <- (displayed_url_reported (checker_of asynchronous) urls) at 2.
    apply Permutation_map, batch_run_displays.
Qed.


(** *** The entry point *)

(** X5. When there is a URL to check, [main] ends without raising, the
    exit status is 0, and every URL of the command line and of the input
    file is probed and has its result displayed, once per occurrence. *)
Theorem main_checks_every_url user_args l :
  outcome (_get_websites_urls user_args) = Ok l ->
  l <> [] ->
  outcome (main user_args) = Ok tt
  /\ exit_status (outcome (main user_args)) = 0%N
  /\ Permutation (begun (trace (main user_args))) l
  /\ Permutation
       (displays (trace (main user_args)))
       (map (fun url =>
               reported url (checker_of (Namespace.asynchronous user_args) url)) l).
Proof.
  intros Hl Hne. destruct (_get_websites_urls_returns _ Hl) as [Hok ->].
  destruct (input_errors_stderr user_args) as (_ & Hbegun & Hdisp).
  rewrite (main_spec _ Hok).
  destruct (combined_urls user_args) as [|u urls] eqn:E; [contradiction|].
  destruct (batch_run_spec (Namespace.asynchronous user_args) io_order (u :: urls))
    as [Hout _].
  pose proof (batch_run_begun (Namespace.asynchronous user_args) io_order (u :: urls))
    as Hb.
  pose proof (batch_run_displays (Namespace.asynchronous user_args) io_order (u :: urls))
    as Hd.
  cbn [trace outcome fst snd] in *. rewrite Hout.
  unfold begun, displays in *. rewrite !flat_map_app, Hbegun, Hdisp.
  repeat split; assumption.
Qed.

(** X6. All that [main] writes to the standard error stream, at most two
    messages, comes before everything else it does: once a probe has
    begun nothing more is written there. *)
Theorem main_errors_first user_args :
  exists errs run,
    trace (main user_args) = errs ++ run
    /\ forallb is_stderr errs = true
    /\ length errs <= 2
    /\ no_stderr run.
Proof.
  destruct (input_failure user_args) as [msg|] eqn:Hok.
  { rewrite (main_fails _ Hok). exists [], []. repeat split; [simpl; lia|constructor]. }
  rewrite (main_spec _ Hok).
  assert (Hlen : length (input_errors user_args) <= 1).
  { unfold input_errors, file_errors. destruct (PyStr.truthy _); [|simpl; lia].
    destruct (disk _) as [|m|m|[|c content]]; simpl; lia. }
  destruct (input_errors_stderr user_args) as (Herr & _ & _).
  destruct (combined_urls user_args) as [|u urls].
  - exists (input_errors user_args ++ [Print Stderr no_urls_message]), [].
    unfold trace, fst. rewrite app_nil_r, forallb_app, Herr, length_app. simpl.
    repeat split; [lia|constructor].
  - eexists (input_errors user_args), _.
    unfold trace at 1, fst. repeat split; [exact Herr|lia|].
    eapply no_stderr_Permutation; [apply batch_run_spec|apply turns_no_stderr].
Qed.

(** X7. How [main] ends is decided by the reading of the URLs. When
    the reading returns URLs, [main] returns; when it returns none,
    [main] raises [SystemExit(1)]; when it raises, reading the input
    file, [main] ends by the same exception, having written nothing and
    begun no probe. No exception of a probe ends [main]. *)
Theorem main_outcome user_args :
  (exists l,
     outcome (_get_websites_urls user_args) = Ok l /\ l <> []
     /\ outcome (main user_args) = Ok tt)
  \/ (outcome (_get_websites_urls user_args) = Ok []
      /\ outcome (main user_args) = Err (SystemExit 1))
  \/ (exists e,
        outcome (_get_websites_urls user_args) = Err e
        /\ main user_args = ([], Err e)).
Proof.
  destruct (input_failure user_args) as [msg|] eqn:Hok.
  { right; right. exists (Exception msg).
    rewrite (_get_websites_urls_fails _ Hok), (main_fails _ Hok). auto. }
  rewrite (main_spec _ Hok), (_get_websites_urls_spec _ Hok). unfold outcome at 1 3, snd.
  destruct (combined_urls user_args) as [|u urls].
  - right; left. split; reflexivity.
  - left. exists (u :: urls). repeat split; [discriminate|].
    unfold outcome at 1, snd. apply batch_run_spec.
Qed.

(** X13. In sequential mode, when the reading of the URLs returns,
    [main] displays the results of the URLs of the command line, in
    their order, and then those of the lines of the input file, in the
    order of the file. *)
Theorem main_sequential_order user_args l :
  Namespace.asynchronous user_args = false ->
  outcome (_get_websites_urls user_args) = Ok l ->
  l = Namespace.urls user_args
      ++ (if PyStr.truthy (Namespace.input_file user_args)
          then file_urls (Namespace.input_file user_args) else [])
  /\ displays (trace (main user_args))
     = map (fun url => reported url (checker_site_is_online url))
           (Namespace.urls user_args)
       ++ map (fun url => reported url (checker_site_is_online url))
              (if PyStr.truthy (Namespace.input_file user_args)
               then file_urls (Namespace.input_file user_args) else []).
Proof.
  intros Hmode Hl. destruct (_get_websites_urls_returns _ Hl) as [Hok ->].
  rewrite <- map_app.
  assert (Hcomb : Namespace.urls user_args
                  ++ (if PyStr.truthy (Namespace.input_file user_args)
                      then file_urls (Namespace.input_file user_args) else [])
                  = combined_urls user_args).
  { unfold combined_urls. destruct (PyStr.truthy _); [reflexivity|apply app_nil_r]. }
  rewrite Hcomb, (main_spec _ Hok), Hmode. split; [reflexivity|].
  destruct (input_errors_stderr user_args) as (_ & _ & Hdisp).
  destruct (combined_urls user_args) as [|u urls]; unfold trace at 1, fst;
    unfold displays in *; rewrite flat_map_app, Hdisp; [reflexivity|].
  simpl batch_run. rewrite _synchronous_check_run.
  exact (displays_turns checker_site_is_online (u :: urls)).
Qed.

(** *** Completion in the order of the input *)

Lemma nth_suspended_first pool : forall before url k after,
  nth_suspended 0 pool = Some (before, (url, k), after) ->
  waiting before = [].
Proof.
  induction pool as [|t pool IH]; intros before url k after; simpl; [discriminate|].
  destruct t as [u' k'|r].
  - intros [= <- <- <- <-]. reflexivity.
  - destruct (nth_suspended 0 pool) as [[[b' [u'' k'']] a']|] eqn:E; [|discriminate].
    intros [= <- <- <- <-]. simpl. eapply IH. reflexivity.
Qed.

Lemma select_first pool x : select 0 pool = Some x -> nth_suspended 0 pool = Some x.
Proof. unfold select. destruct (nth_suspended 0 pool); congruence. Qed.

Lemma event_loop_in_order fuel : forall sched pool,
  Forall (fun n => n = 0) sched ->
  Forall checking pool ->
  pending pool <= fuel ->
  event_loop fuel sched pool
  = (flat_map (fun url => finish url (checker_site_is_online_async url)) (waiting pool),
     Ok tt).
Proof.
  induction fuel as [|fuel IH]; intros sched pool Hsched Hpool Hfuel; cbn [event_loop];
    (assert (Hhd : hd 0 sched = 0) by (destruct Hsched; auto)); rewrite Hhd;
    destruct (select 0 pool) as [[[before [url k]] after]|] eqn:Hsel.
  - apply select_split in Hsel; subst pool.
    rewrite pending_app in Hfuel; simpl in Hfuel; lia.
  - apply select_none in Hsel as [_ Hsel]. rewrite pending_waiting in Hsel by assumption.
    destruct (waiting pool); [reflexivity|discriminate].
  - pose proof (nth_suspended_first _ (select_first _ Hsel)) as Hbefore.
    apply select_split in Hsel; subst pool.
    apply Forall_app in Hpool as [Hb Ha]. inversion Ha as [|? ? Hk Ha']; subst.
    simpl in Hk. rewrite Hk.
    rewrite (IH (tl sched) (before ++ Finished (Ok tt) :: after)).
    + unfold waiting in *. rewrite !flat_map_app, Hbefore. reflexivity.
    + destruct Hsched; [constructor|assumption].
    + apply Forall_app; split; [assumption|]. constructor; [reflexivity|assumption].
    + rewrite pending_app in *. simpl in *. lia.
  - apply select_none in Hsel as [_ Hsel]. rewrite pending_waiting in Hsel by assumption.
    destruct (waiting pool); [reflexivity|discriminate].
Qed.

(** X15. When every probe of a concurrent batch is suspended and the
    probes are over in the order in which they began, the results are
    displayed in input order. *)
Theorem concurrent_in_order sched urls :
  Forall (fun n => n = 0) sched ->
  (forall url, In url urls -> checker_suspends url = true) ->
  displays (trace (asyncio_run sched (_asynchronous_check urls)))
  = map (fun url => reported url (checker_site_is_online_async url)) urls.
Proof.
  intros Hsched Hsusp.
  assert (Hall : filter checker_suspends urls = urls
                 /\ filter (fun url => negb (checker_suspends url)) urls = []).
  { induction urls as [|url urls IH]; [split; reflexivity|]. simpl.
    rewrite (Hsusp url (or_introl eq_refl)). simpl.
    destruct IH as [-> ->]; [|split; reflexivity].
    intros u Hu. apply Hsusp. now right. }
  destruct Hall as [Hyes Hno].
  unfold _asynchronous_check, asyncio_run; cbv zeta.
  destruct (_asynchronous_check_pool urls) as (Hfst & Hpool & Hwait).
  rewrite Hfst, (first_failure_checking Hpool).
  rewrite (event_loop_in_order Hsched Hpool (le_n _)), Hwait, Hyes.
  unfold trace, bind, fst. unfold displays. rewrite flat_map_app.
  destruct (displays_start urls) as [_ Hd]. unfold displays in Hd. rewrite Hd, Hno.
  apply displays_finish.
Qed.

End Program.

(** ** The theorems at work on the sample environments *)

Example strip_ex :
  PyStr.strip (pystr_of_string "  a b	") = pystr_of_string "a b".
Proof. reflexivity. Qed.

Example readlines_ex :
  PyStr.readlines ([97; 13; 10; 98; 13; 10; 10; 99]%N)
  = [[97; 10]; [98; 10]; [10]; [99]]%N.
Proof. reflexivity. Qed.

(** Under the schedule [2; 0; 0] the third probe is over first: the
    concurrent results come in the order c, a, b. *)
Example out_of_order :
  map displayed_url
      (displays (trace (asyncio_run Demo.probe [2; 0; 0]
                          (_asynchronous_check Demo.probe Demo.suspends
                                               [Demo.a; Demo.b; Demo.c]))))
  = [Demo.c; Demo.a; Demo.b].
Proof. reflexivity. Qed.

(** A probe that is not suspended is over, and its result displayed,
    before the next task begins: the result of [b.org] comes first, and
    when no probe is suspended the concurrent run is the sequential one. *)
Example eager_probe_first :
  map displayed_url
      (displays (trace (asyncio_run Demo.probe [0; 0]
                          (_asynchronous_check Demo.probe Sample.suspends'
                                               [Demo.a; Demo.b; Demo.c]))))
  = [Demo.b; Demo.a; Demo.c]
  /\ asyncio_run Demo.probe []
       (_asynchronous_check Demo.probe (fun _ => false) [Demo.a; Demo.b; Demo.c])
     = _synchronous_check Demo.probe [Demo.a; Demo.b; Demo.c].
Proof. split; reflexivity. Qed.

(** An exception whose [str] is empty is displayed with the empty error
    detail, in sequential and in concurrent mode. *)
Example silent_exception_displayed :
  Demo.probe Demo.silent = Raised []
  /\ displays (trace (_synchronous_check Demo.probe [Demo.silent]))
     = [(false, Demo.silent, [])]
  /\ displays (trace (asyncio_run Demo.probe []
                        (_asynchronous_check Demo.probe Demo.suspends [Demo.silent])))
     = [(false, Demo.silent, [])].
Proof. repeat split. Qed.

(** C1, as stated, fails: the error detail of a URL whose probe raises
    need not be non-empty. The probe of [Demo.silent] raises an exception
    whose [str] is empty, and the only result displayed for it has the
    empty error detail. *)
Lemma probe_exception_empty_detail :
  ~ (forall checker_sync checker_async checker_suspends
            asynchronous sched urls url msg,
       In url urls ->
       checker_of checker_sync checker_async asynchronous url = Raised msg ->
       exists e,
         e <> []
         /\ In (false, url, e)
               (displays (trace (batch_run checker_sync checker_async checker_suspends
                                           asynchronous sched urls)))).
Proof.
  intros H.
  destruct (H Demo.probe Demo.probe Demo.suspends false [] [Demo.silent] Demo.silent []
              (or_introl eq_refl) eq_refl) as (e & He & Hin).
  destruct silent_exception_displayed as (_ & Hs & _).
  simpl batch_run in Hin. rewrite Hs in Hin.
  destruct Hin as [Hin|[]]. apply He. congruence.
Qed.

Lemma probe_exception_is_reported_witness :
  In Demo.b [Demo.a; Demo.b; Demo.c]
  /\ checker_of Demo.probe Demo.probe true Demo.b = Raised (pystr_of_string "timed out")
  /\ outcome (batch_run Demo.probe Demo.probe Demo.suspends true [2; 0; 0]
                        [Demo.a; Demo.b; Demo.c])
     = Ok tt
  /\ In (false, Demo.b, pystr_of_string "timed out")
        (displays (trace (batch_run Demo.probe Demo.probe Demo.suspends true [2; 0; 0]
                                    [Demo.a; Demo.b; Demo.c]))).
Proof.
  assert (Hin : In Demo.b [Demo.a; Demo.b; Demo.c]) by (simpl; auto).
  assert (Hraised : checker_of Demo.probe Demo.probe true Demo.b
                    = Raised (pystr_of_string "timed out")) by reflexivity.
  destruct (probe_exception_is_reported Demo.probe Demo.probe Demo.suspends true
              [2; 0; 0] [Demo.a; Demo.b; Demo.c] Demo.b Hin Hraised)
    as (Hout & _ & Hdisp & _).
  exact (conj Hin (conj Hraised (conj Hout Hdisp))).
Defined.

Lemma sequential_order_witness :
  trace (_synchronous_check Demo.probe [Demo.a; Demo.b; Demo.c])
  = turn Demo.a (Returned true)
    ++ ProbeBegin Demo.b :: tl (turns Demo.probe [Demo.b; Demo.c])
  /\ exists done todo,
       [Demo.a; Demo.b; Demo.c] = done ++ Demo.b :: todo
       /\ turn Demo.a (Returned true) = turns Demo.probe done.
Proof.
  split; [reflexivity|].
  apply (proj2 (sequential_order Demo.probe [Demo.a; Demo.b; Demo.c])
               (turn Demo.a (Returned true)) Demo.b
               (tl (turns Demo.probe [Demo.b; Demo.c]))).
  reflexivity.
Defined.

(** C4, as stated, fails: the two modes call two probes, and nothing
    makes them agree. With a synchronous probe that finds [a.org] online
    and an asynchronous one that is refused by it, the two modes display
    different results for the same input. *)
Lemma concurrent_multiset_differs :
  ~ (forall checker_sync checker_async checker_suspends sched urls,
       Permutation
         (displays (trace (asyncio_run checker_async sched
                             (_asynchronous_check checker_async checker_suspends urls))))
         (displays (trace (_synchronous_check checker_sync urls)))).
Proof.
  intros H.
  specialize (H Demo.probe Sample.probe' Demo.suspends [] [Demo.a]).
  apply Permutation_length_1_inv in H. discriminate H.
Qed.

Lemma concurrent_same_multiset_witness :
  (forall url, In url [Demo.a; Demo.b; Demo.c] -> Demo.probe url = Demo.probe url)
  /\ Permutation
       (displays (trace (asyncio_run Demo.probe [2; 0; 0]
                           (_asynchronous_check Demo.probe Sample.suspends'
                                                [Demo.a; Demo.b; Demo.c]))))
       (displays (trace (_synchronous_check Demo.probe [Demo.a; Demo.b; Demo.c]))).
Proof.
  split; [reflexivity|].
  apply (concurrent_same_multiset Demo.probe Demo.probe Sample.suspends' [2; 0; 0]
           [Demo.a; Demo.b; Demo.c]).
  reflexivity.
Defined.

Lemma plain_false_has_no_error_detail_witness :
  In Demo.c [Demo.a; Demo.b; Demo.c]
  /\ checker_of Demo.probe Demo.probe true Demo.c = Returned false
  /\ In (false, Demo.c, [])
        (displays (trace (batch_run Demo.probe Demo.probe Demo.suspends true [1; 1; 0]
                                    [Demo.a; Demo.b; Demo.c]))).
Proof.
  assert (Hin : In Demo.c [Demo.a; Demo.b; Demo.c]) by (simpl; auto).
  assert (Hfalse : checker_of Demo.probe Demo.probe true Demo.c = Returned false)
    by reflexivity.
  exact (conj Hin (conj Hfalse
           (proj1 (plain_false_has_no_error_detail Demo.probe Demo.probe Demo.suspends
                     true [1; 1; 0] [Demo.a; Demo.b; Demo.c] Demo.c Hin Hfalse)))).
Defined.

Lemma main_no_urls_witness :
  outcome (_get_websites_urls Demo.disk (Namespace.make [] Demo.empty_txt true)) = Ok []
  /\ outcome (main Demo.probe Demo.probe Demo.suspends Demo.disk []
                   (Namespace.make [] Demo.empty_txt true))
     = Err (SystemExit 1)
  /\ trace (main Demo.probe Demo.probe Demo.suspends Demo.disk []
                 (Namespace.make [] Demo.empty_txt true))
     = [Print Stderr (empty_file_message Demo.empty_txt); Print Stderr no_urls_message].
Proof.
  assert (Hnone : outcome (_get_websites_urls Demo.disk
                             (Namespace.make [] Demo.empty_txt true)) = Ok [])
    by reflexivity.
  destruct (main_no_urls Demo.probe Demo.probe Demo.suspends Demo.disk []
              (Namespace.make [] Demo.empty_txt true) Hnone) as (Htr & Hout & _).
  refine (conj Hnone (conj Hout _)). rewrite Htr. reflexivity.
Defined.

(** The name of 300 letters is the name of no file, yet [is_file] raises
    [OSError] on it where it would return [False] for a missing file.
    Nothing catches the exception: no message is written, and [main]
    ends by it before any probe of the URLs of the command line. *)
Example over_long_name :
  Demo.disk Demo.too_long = StatError Demo.name_too_long
  /\ _get_websites_urls Demo.disk (Namespace.make [Demo.a] Demo.too_long false)
     = ([], Err (Exception Demo.name_too_long))
  /\ main Demo.probe Demo.probe Demo.suspends Demo.disk []
          (Namespace.make [Demo.a] Demo.too_long false)
     = ([], Err (Exception Demo.name_too_long)).
Proof. repeat split. Qed.

(** C7, as stated, fails at the name of 300 letters: no file can be read
    there, and no message is written. *)
Lemma missing_file_without_message :
  ~ (forall disk user_args,
       PyStr.truthy (Namespace.input_file user_args) = true ->
       fs disk (Namespace.input_file user_args) = None ->
       exists msg,
         In (Print Stderr msg) (trace (_get_websites_urls disk user_args))).
Proof.
  intros H.
  destruct (H Demo.disk (Namespace.make [Demo.a] Demo.too_long false)
              eq_refl eq_refl) as (msg & Hin).
  destruct over_long_name as (_ & Hget & _). rewrite Hget in Hin. destruct Hin.
Qed.

(** C10, as stated, fails at the name of 300 letters: no file can be
    read there, a URL is given on the command line, and [main] does not
    return. *)
Lemma missing_file_aborts_the_run :
  ~ (forall checker_sync checker_async checker_suspends disk io_order user_args,
       PyStr.truthy (Namespace.input_file user_args) = true ->
       fs disk (Namespace.input_file user_args) = None ->
       Namespace.urls user_args <> [] ->
       outcome (main checker_sync checker_async checker_suspends disk io_order user_args)
       = Ok tt).
Proof.
  intros H.
  specialize (H Demo.probe Demo.probe Demo.suspends Demo.disk []
                (Namespace.make [Demo.a] Demo.too_long false) eq_refl eq_refl).
  destruct over_long_name as (_ & _ & Hmain). rewrite Hmain in H.
  assert (Hne : Namespace.urls (Namespace.make [Demo.a] Demo.too_long false) <> [])
    by discriminate.
  specialize (H Hne). discriminate H.
Qed.

Lemma input_file_urls_appended_witness :
  PyStr.truthy Demo.urls_txt = true
  /\ fs Demo.disk Demo.urls_txt
     = Some (pystr_of_string "  a.org " ++ [13; 10]%N ++ pystr_of_string "c.org" ++ [10]%N)
  /\ _get_websites_urls Demo.disk (Namespace.make [Demo.b] Demo.urls_txt false)
     = ([], Ok ([Demo.b] ++ [Demo.a; Demo.c])).
Proof.
  assert (Hfile : PyStr.truthy
                    (Namespace.input_file (Namespace.make [Demo.b] Demo.urls_txt false))
                  = true) by reflexivity.
  assert (Hfs : fs Demo.disk
                   (Namespace.input_file (Namespace.make [Demo.b] Demo.urls_txt false))
                = Some (pystr_of_string "  a.org " ++ [13; 10]%N
                        ++ pystr_of_string "c.org" ++ [10]%N)) by reflexivity.
  refine (conj Hfile (conj Hfs _)).
  apply (proj1 (input_file_urls_appended Demo.disk
                  (Namespace.make [Demo.b] Demo.urls_txt false) Hfile) _ Hfs).
  discriminate.
Defined.

Lemma blank_lines_become_empty_urls_witness :
  fs Demo.disk Demo.blank_txt = Some [32; 9; 10; 10]%N
  /\ PyStr.readlines [32; 9; 10; 10]%N = [[32; 9; 10]; [10]]%N
  /\ main Demo.probe Demo.probe Demo.suspends Demo.disk []
          (Namespace.make [Demo.a] Demo.blank_txt false)
     = batch_run Demo.probe Demo.probe Demo.suspends false [] [Demo.a; []; []].
Proof.
  split; [reflexivity|]. split; [reflexivity|].
  apply (blank_lines_become_empty_urls Demo.probe Demo.probe Demo.suspends Demo.disk []
           (Namespace.make [Demo.a] Demo.blank_txt false) (content := [32; 9; 10; 10]%N)).
  - reflexivity.
  - reflexivity.
  - discriminate.
  - repeat constructor.
Defined.

Lemma bad_input_file_does_not_abort_witness :
  PyStr.truthy (pystr_of_string "missing.txt") = true
  /\ Demo.disk (pystr_of_string "missing.txt") = Missing
  /\ exists msg,
       main Demo.probe Demo.probe Demo.suspends Demo.disk []
            (Namespace.make [Demo.a] (pystr_of_string "missing.txt") false)
       = (Print Stderr msg
            :: trace (main Demo.probe Demo.probe Demo.suspends Demo.disk []
                           (Namespace.make [Demo.a] [] false)),
          Ok tt).
Proof.
  split; [reflexivity|]. split; [reflexivity|].
  destruct (bad_input_file_does_not_abort Demo.probe Demo.probe Demo.suspends Demo.disk []
              (Namespace.make [Demo.a] (pystr_of_string "missing.txt") false)
              eq_refl (or_introl eq_refl)) as (msg & _ & Hmain & _).
  exists msg. exact Hmain.
Defined.

(** ** Further properties, across environments *)

(** X12. Failures are isolated: when the probes of two environments
    differ on one URL only, a batch displays the same results for every
    other URL in both, in either mode and under any two schedules. *)
Theorem failure_isolation
    checker_sync checker_async checker_suspends
    checker_sync' checker_async' checker_suspends'
    asynchronous sched sched' urls bad :
  (forall url, url <> bad ->
     checker_of checker_sync checker_async asynchronous url
     = checker_of checker_sync' checker_async' asynchronous url) ->
  forall r url e,
    url <> bad ->
    In (r, url, e)
       (displays (trace (batch_run checker_sync checker_async checker_suspends
                                   asynchronous sched urls)))
    <-> In (r, url, e)
           (displays (trace (batch_run checker_sync' checker_async' checker_suspends'
                                       asynchronous sched' urls))).
Proof.
  intros Hsame r url e Hurl.
  rewrite !in_displays, (Hsame url Hurl). reflexivity.
Qed.

Ltac plain_sample :=
  repeat split; try reflexivity;
  let H := fresh in
  intros H; simpl in H;
  repeat (destruct H as [H|H]; [discriminate|]); exact H.


Lemma main_checks_every_url_witness :
  outcome (_get_websites_urls Demo.disk (Namespace.make [Demo.b] Demo.urls_txt true))
  = Ok [Demo.b; Demo.a; Demo.c]
  /\ [Demo.b; Demo.a; Demo.c] <> []
  /\ exit_status
       (outcome (main Demo.probe Demo.probe Sample.suspends' Demo.disk [1]
                      (Namespace.make [Demo.b] Demo.urls_txt true)))
     = 0%N.
Proof.
  assert (Hl : outcome (_get_websites_urls Demo.disk
                          (Namespace.make [Demo.b] Demo.urls_txt true))
               = Ok [Demo.b; Demo.a; Demo.c]) by reflexivity.
  assert (Hne : [Demo.b; Demo.a; Demo.c] <> []) by discriminate.
  refine (conj Hl (conj Hne _)).
  apply (main_checks_every_url Demo.probe Demo.probe Sample.suspends' Demo.disk [1]
           (Namespace.make [Demo.b] Demo.urls_txt true) Hl Hne).
Defined.

Lemma file_urls_plain_witness :
  outcome (_read_urls_from_file Demo.disk Demo.urls_txt) = Ok [Demo.a; Demo.c]
  /\ Forall plain [Demo.a; Demo.c].
Proof.
  assert (Hl : outcome (_read_urls_from_file Demo.disk Demo.urls_txt)
               = Ok [Demo.a; Demo.c]) by reflexivity.
  exact (conj Hl (file_urls_plain Demo.disk Demo.urls_txt Hl)).
Defined.


Lemma file_read_back_open_line_witness :
  Forall plain [Demo.a; Demo.b]
  /\ plain Demo.c
  /\ Demo.c <> []
  /\ fs Sample.disk Sample.open_txt = Some (unlines Unix [Demo.a; Demo.b] ++ Demo.c)
  /\ _read_urls_from_file Sample.disk Sample.open_txt
     = ([], Ok ([Demo.a; Demo.b] ++ [Demo.c])).
Proof.
  assert (Hurls : Forall plain [Demo.a; Demo.b]) by (repeat constructor; plain_sample).
  assert (Hlast : plain Demo.c) by plain_sample.
  assert (Hne : Demo.c <> []) by discriminate.
  assert (Hfs : fs Sample.disk Sample.open_txt
                = Some (unlines Unix [Demo.a; Demo.b] ++ Demo.c)) by reflexivity.
  exact (conj Hurls (conj Hlast (conj Hne (conj Hfs
           (file_read_back_open_line Sample.disk Unix Sample.open_txt
              Hurls Hlast Hne Hfs))))).
Defined.

Lemma failure_isolation_witness :
  (forall url, url <> Demo.a ->
     checker_of Demo.probe Demo.probe true url
     = checker_of Sample.probe' Sample.probe' true url)
  /\ Demo.b <> Demo.a
  /\ (In (false, Demo.b, pystr_of_string "timed out")
         (displays (trace (batch_run Demo.probe Demo.probe Demo.suspends true [2; 0]
                                     [Demo.a; Demo.b; Demo.c])))
      <-> In (false, Demo.b, pystr_of_string "timed out")
             (displays (trace (batch_run Sample.probe' Sample.probe' Sample.suspends'
                                         true [0; 1] [Demo.a; Demo.b; Demo.c])))).
Proof.
  assert (Hsame : forall url, url <> Demo.a ->
            checker_of Demo.probe Demo.probe true url
            = checker_of Sample.probe' Sample.probe' true url).
  { intros url Hurl. simpl. unfold Sample.probe'.
    destruct (list_eq_dec N.eq_dec url Demo.a); [contradiction|reflexivity]. }
  assert (Hb : Demo.b <> Demo.a) by discriminate.
  exact (conj Hsame (conj Hb
           (failure_isolation Demo.probe Demo.probe Demo.suspends
              Sample.probe' Sample.probe' Sample.suspends'
              true [2; 0] [0; 1] [Demo.a; Demo.b; Demo.c] Hsame
              false (pystr_of_string "timed out") Hb))).
Defined.

Lemma main_sequential_order_witness :
  Namespace.asynchronous (Namespace.make [Demo.b] Demo.urls_txt false) = false
  /\ outcome (_get_websites_urls Demo.disk (Namespace.make [Demo.b] Demo.urls_txt false))
     = Ok [Demo.b; Demo.a; Demo.c]
  /\ displays (trace (main Demo.probe Demo.probe Demo.suspends Demo.disk []
                           (Namespace.make [Demo.b] Demo.urls_txt false)))
     = [(false, Demo.b, pystr_of_string "timed out")]
       ++ [(true, Demo.a, []); (false, Demo.c, [])].
Proof.
  assert (Hmode : Namespace.asynchronous (Namespace.make [Demo.b] Demo.urls_txt false)
                  = false) by reflexivity.
  assert (Hl : outcome (_get_websites_urls Demo.disk
                          (Namespace.make [Demo.b] Demo.urls_txt false))
               = Ok [Demo.b; Demo.a; Demo.c]) by reflexivity.
  exact (conj Hmode (conj Hl
           (proj2 (main_sequential_order Demo.probe Demo.probe Demo.suspends Demo.disk []
                     (Namespace.make [Demo.b] Demo.urls_txt false) Hmode Hl)))).
Defined.

Lemma filter_no_stderr tr : no_stderr tr -> filter is_stderr tr = [].
Proof.
  induction 1 as [|ev tr Hev _ IH]; simpl; [reflexivity|]. now rewrite Hev.
Qed.

(** X16. What [main] writes to the standard error stream depends on the
    URLs of the command line, on the input file and on the file system
    only: not on the mode, on the probes or on the schedule. *)
Theorem stderr_independent_of_probes
    checker_sync checker_async checker_suspends
    checker_sync' checker_async' checker_suspends'
    disk io_order io_order' user_args user_args' :
  Namespace.urls user_args = Namespace.urls user_args' ->
  Namespace.input_file user_args = Namespace.input_file user_args' ->
  filter is_stderr
         (trace (main checker_sync checker_async checker_suspends disk
                      io_order user_args))
  = filter is_stderr
           (trace (main checker_sync' checker_async' checker_suspends' disk
                        io_order' user_args')).
Proof.
  intros Hurls Hfile.
  assert (Hf : input_failure disk user_args = input_failure disk user_args')
    by (unfold input_failure; now rewrite Hfile).
  destruct (input_failure disk user_args) as [msg|] eqn:Hok; symmetry in Hf.
  { now rewrite (main_fails _ _ _ _ _ _ Hok), (main_fails _ _ _ _ _ _ Hf). }
  rewrite (main_spec _ _ _ _ _ _ Hok), (main_spec _ _ _ _ _ _ Hf).
  assert (Hc : combined_urls disk user_args = combined_urls disk user_args')
    by (unfold combined_urls; now rewrite Hurls, Hfile).
  assert (He : input_errors disk user_args = input_errors disk user_args')
    by (unfold input_errors; now rewrite Hfile).
  rewrite <- Hc, <- He.
  destruct (combined_urls disk user_args) as [|u urls]; [reflexivity|].
  unfold trace at 1 3, fst. rewrite !filter_app. f_equal.
  rewrite !filter_no_stderr; [reflexivity| |];
    (eapply no_stderr_Permutation; [apply batch_run_spec|apply turns_no_stderr]).
Qed.

Lemma concurrent_in_order_witness :
  Forall (fun n => n = 0) [0; 0; 0]
  /\ (forall url, In url [Demo.a; Demo.b; Demo.c] -> Demo.suspends url = true)
  /\ displays (trace (asyncio_run Demo.probe [0; 0; 0]
                        (_asynchronous_check Demo.probe Demo.suspends
                                             [Demo.a; Demo.b; Demo.c])))
     = [(true, Demo.a, []);
        (false, Demo.b, pystr_of_string "timed out");
        (false, Demo.c, [])].
Proof.
  assert (Hsched : Forall (fun n => n = 0) [0; 0; 0]) by (repeat constructor).
  assert (Hsusp : forall url, In url [Demo.a; Demo.b; Demo.c] -> Demo.suspends url = true)
    by reflexivity.
  exact (conj Hsched (conj Hsusp
           (concurrent_in_order Demo.probe Demo.suspends [Demo.a; Demo.b; Demo.c]
              Hsched Hsusp))).
Defined.

Lemma stderr_independent_of_probes_witness :
  Namespace.urls (Namespace.make [Demo.a] Demo.empty_txt false)
  = Namespace.urls (Namespace.make [Demo.a] Demo.empty_txt true)
  /\ Namespace.input_file (Namespace.make [Demo.a] Demo.empty_txt false)
     = Namespace.input_file (Namespace.make [Demo.a] Demo.empty_txt true)
  /\ filter is_stderr
            (trace (main Demo.probe Demo.probe Demo.suspends Demo.disk []
                         (Namespace.make [Demo.a] Demo.empty_txt false)))
     = filter is_stderr
              (trace (main Sample.probe' Sample.probe' Sample.suspends' Demo.disk [3]
                           (Namespace.make [Demo.a] Demo.empty_txt true))).
Proof.
  refine (conj eq_refl (conj eq_refl _)).
  apply (stderr_independent_of_probes
           Demo.probe Demo.probe Demo.suspends
           Sample.probe' Sample.probe' Sample.suspends'
           Demo.disk [] [3]
           (Namespace.make [Demo.a] Demo.empty_txt false)
           (Namespace.make [Demo.a] Demo.empty_txt true)); reflexivity.
Defined.
